(** * SScanSS-2: mesh geometry and volume transfer curves

    A shallow embedding of [sscanss/core/mesh/geometry.py] and
    [sscanss/core/geometry/volume.py].

    Numbers.  The Python code computes with IEEE doubles.  Here a finite
    double is an exact rational ([Q]): rounding is not modelled, so every
    statement below is about the arithmetic the code writes down, carried
    out exactly.  Where the code can leave the finite numbers (the
    reciprocals [1.0 / dot] of [closest_triangle_to_point]) the values are
    [xnum]: a rational, an infinity or NaN, with the IEEE rules for them
    written out. *)

From Stdlib Require Import QArith Qround ZArith List Bool Lia Lqa.
Import ListNotations.

Open Scope Q_scope.

(** ** Python exceptions as results *)

(** The exceptions that matter here.  [IndexError] and [ValueError] are
    Python's; [FitError] stands for whatever the fitting library raises;
    [InvalidCurveDefinition] is the error named in section 7 of the
    specification (nothing in the code raises it). *)
Inductive exn : Type :=
| IndexError
| ValueError
| InvalidCurveDefinition
| FitError.

Inductive result (A : Type) : Type :=
| Ok (a : A)
| Raise (e : exn).
Arguments Ok {A} a.
Arguments Raise {A} e.

Definition bind {A B : Type} (r : result A) (k : A -> result B) : result B :=
  match r with
  | Ok a => k a
  | Raise e => Raise e
  end.

Notation "x <- r ;; k" := (bind r (fun x => k))
  (at level 61, r at next level, right associativity).

Definition of_option {A : Type} (e : exn) (o : option A) : result A :=
  match o with
  | Some a => Ok a
  | None => Raise e
  end.

Fixpoint mapM {A B : Type} (f : A -> result B) (l : list A) : result (list B) :=
  match l with
  | [] => Ok []
  | a :: r => b <- f a ;; bs <- mapM f r ;; Ok (b :: bs)
  end.

(** ** Comparisons on rationals, as booleans *)

Definition Qltb (a b : Q) : bool := negb (Qle_bool b a).

(** ** Three-dimensional vectors *)

Record V3 : Type := mkV3 { vx : Q; vy : Q; vz : Q }.

Definition vadd (a b : V3) : V3 := mkV3 (vx a + vx b) (vy a + vy b) (vz a + vz b).
Definition vsub (a b : V3) : V3 := mkV3 (vx a - vx b) (vy a - vy b) (vz a - vz b).
Definition vscale (t : Q) (a : V3) : V3 := mkV3 (t * vx a) (t * vy a) (t * vz a).
Definition dot (a b : V3) : Q := vx a * vx b + vy a * vy b + vz a * vz b.
Definition cross (a b : V3) : V3 :=
  mkV3 (vy a * vz b - vz a * vy b)
       (vz a * vx b - vx a * vz b)
       (vx a * vy b - vy a * vx b).

(** ** geometry.py: segment_plane_intersection *)

Record Plane : Type := mkPlane { point : V3; normal : V3 }.

Definition eps : Q := 1 # 1000000.

Definition segment_plane_intersection (point_a point_b : V3) (plane : Plane)
  : option V3 :=
  let ab := vsub point_b point_a in
  let n := - dot (normal plane) (vsub point_a (point plane)) in
  let d := dot (normal plane) ab in
  if Qltb (- eps) d && Qltb d eps then None
  else
    let t := n / d in
    if Qle_bool 0 t && Qle_bool t 1 then Some (vadd point_a (vscale t ab))
    else None.

(** Signed distance of a vertex to the plane, as [mesh_plane_intersection]
    computes it: [np.dot(v - plane.point, plane.normal)]. *)
Definition signed_dist (plane : Plane) (v : V3) : Q :=
  dot (vsub v (point plane)) (normal plane).





(** A horizontal plane through the origin, for the examples. *)
Definition c3_plane : Plane := mkPlane (mkV3 0 0 0) (mkV3 0 0 1).

(** ** numpy idioms on lists *)

(** [arr[i]]: raises [IndexError] out of range. *)
Definition get {A : Type} (arr : list A) (i : nat) : result A :=
  of_option IndexError (nth_error arr i).

(** [arr[idx]] with an index array [idx]. *)
Definition fancy_index {A : Type} (arr : list A) (idx : list nat) : result (list A) :=
  mapM (get arr) idx.

(** [arr[lo:hi]]: a slice never raises, it is cut at the end of [arr]. *)
Definition slice {A : Type} (arr : list A) (lo hi : nat) : list A :=
  firstn (hi - lo) (skipn lo arr).

(** [np.where(mask)[0]] and [np.nonzero(mask)[0]]: the positions that hold. *)
Fixpoint where_from (i : nat) (mask : list bool) : list nat :=
  match mask with
  | [] => []
  | b :: r => if b then i :: where_from (S i) r else where_from (S i) r
  end.

Definition np_where (mask : list bool) : list nat := where_from 0 mask.

(** [range(0, n, 3)] *)
Definition range3 (n : nat) : list nat :=
  map (fun k => (3 * k)%nat) (seq 0 ((n + 2) / 3)).

(** [np.logical_and.reduceat(mask, offsets)] for the offsets of [range3]:
    the conjunction over each run [offset, next offset), the last run ending
    with the array. *)
Definition reduceat_and (mask : list bool) (offsets : list nat) : list bool :=
  map (fun off => forallb (fun b => b) (slice mask off (off + 3))) offsets.

(** [np.delete(arr, obj)]: [arr] without the positions listed in [obj]. *)
Definition np_delete {A : Type} (arr : list A) (obj : list nat) : list A :=
  map snd
    (filter (fun ia => negb (existsb (Nat.eqb (fst ia)) obj))
            (combine (seq 0 (length arr)) arr)).

Fixpoint foldM {A S : Type} (f : S -> A -> result S) (l : list A) (s : S) : result S :=
  match l with
  | [] => Ok s
  | a :: r => s' <- f s a ;; foldM f r s'
  end.

(** ** geometry.py: mesh_plane_intersection *)

(** [sscanss.core.mesh.Mesh], as far as the function reads it: the vertex
    buffer and the flat index buffer. *)
Record Mesh : Type := mkMesh { vertices : list V3; indices : list nat }.

(** The loop [for i, j in face_indices] with its [break]. *)
Fixpoint edge_loop (plane : Plane) (verts : list V3) (face_indices : list (nat * nat))
         (points : list V3) (segments : list V3) : result (list V3) :=
  match face_indices with
  | [] => Ok segments
  | (i, j) :: rest =>
      a <- get verts i ;;
      b <- get verts j ;;
      let points' :=
        match segment_plane_intersection a b plane with
        | Some q => points ++ [q]
        | None => points
        end in
      if (length points' =? 2)%nat then
        p0 <- get points' 0 ;;
        p1 <- get points' 1 ;;
        Ok (segments ++ [p0; p1])
      else edge_loop plane verts rest points' segments
  end.

(** The body of [for index in indices]. *)
Definition face_body (plane : Plane) (all_dist : list Q) (all_vertices : list V3)
           (segments : list V3) (index : nat) : result (list V3) :=
  let dist := slice all_dist index (index + 3) in
  let verts := slice all_vertices index (index + 3) in
  let nonzeros := np_where (map (fun d => negb (Qeq_bool d 0)) dist) in
  match length nonzeros with
  | O => Ok segments
  | 1%nat =>
      k <- get nonzeros 0 ;;
      let tmp := np_delete [0; 1; 2]%nat [k] in
      t0 <- get tmp 0 ;;
      t1 <- get tmp 1 ;;
      a <- get verts t0 ;;
      b <- get verts t1 ;;
      Ok (segments ++ [a; b])
  | 2%nat =>
      let tmp := np_delete [0; 1; 2]%nat nonzeros in
      t0 <- get tmp 0 ;;
      z <- get verts t0 ;;
      n0 <- get nonzeros 0 ;;
      n1 <- get nonzeros 1 ;;
      edge_loop plane verts [(n0, n1)] [z] segments
  | _ => edge_loop plane verts [(0, 1); (1, 2); (0, 2)]%nat [] segments
  end.

Definition mesh_plane_intersection (mesh : Mesh) (plane : Plane) : result (list V3) :=
  all_vertices <- fancy_index (vertices mesh) (indices mesh) ;;
  let all_dist := map (signed_dist plane) all_vertices in
  let offsets := range3 (length all_vertices) in
  let gg := reduceat_and (map (fun d => Qltb 0 d) all_dist) offsets in
  let ll := reduceat_and (map (fun d => Qltb d 0) all_dist) offsets in
  let indices :=
    map (fun k => (k * 3)%nat)
        (np_where (map (fun lg => negb (fst lg) && negb (snd lg)) (combine ll gg))) in
  if (length indices =? 0)%nat then Ok []
  else foldM (face_body plane all_dist all_vertices) indices [].

(** *** The face rules of the specification *)

Definition Face3 : Type := (V3 * V3 * V3)%type.

(** The rows of [all_vertices] that belong to one face. *)
Definition face_list (f : Face3) : list V3 := [fst (fst f); snd (fst f); snd f].

(** The face passes the filter [~ll & ~gg]: its vertices are neither all
    strictly above nor all strictly below the plane. *)
Definition candidate (plane : Plane) (f : Face3) : bool :=
  let dist := map (signed_dist plane) (face_list f) in
  negb (forallb (fun b => b) (map (fun d => Qltb d 0) dist)) &&
  negb (forallb (fun b => b) (map (fun d => Qltb 0 d) dist)).

(** The index buffer of a list of triangles. *)
Definition flat_indices (tris : list (nat * nat * nat)) : list nat :=
  flat_map (fun t => [fst (fst t); snd (fst t); snd t]) tris.

(** The three vertices of a triangle, looked up in the vertex buffer. *)
Definition lookup_face (verts : list V3) (t : nat * nat * nat) : result Face3 :=
  a <- get verts (fst (fst t)) ;;
  b <- get verts (snd (fst t)) ;;
  c <- get verts (snd t) ;;
  Ok (a, b, c).

(** The crossings found on a list of edges, in the order of the edges. *)
Definition crossings (plane : Plane) (edges : list (V3 * V3)) : list V3 :=
  flat_map (fun e => match segment_plane_intersection (fst e) (snd e) plane with
                     | Some q => [q]
                     | None => []
                     end) edges.

(** One vertex in the plane: it is paired with the crossing of the edge
    between the other two, when there is one. *)
Definition vertex_and_crossing (plane : Plane) (z a b : V3) : list V3 :=
  match segment_plane_intersection a b plane with
  | Some q => [z; q]
  | None => []
  end.

(** What one face adds to the segment list, by the rules of the
    specification (section 4.4, steps 2 and 3). *)
Definition face_segment (plane : Plane) (f : Face3) : list V3 :=
  let '(v0, v1, v2) := f in
  let d0 := signed_dist plane v0 in
  let d1 := signed_dist plane v1 in
  let d2 := signed_dist plane v2 in
  if (Qltb 0 d0 && Qltb 0 d1 && Qltb 0 d2) || (Qltb d0 0 && Qltb d1 0 && Qltb d2 0)
  then []
  else
    match negb (Qeq_bool d0 0), negb (Qeq_bool d1 0), negb (Qeq_bool d2 0) with
    | false, false, false => []
    | true, false, false => [v1; v2]
    | false, true, false => [v0; v2]
    | false, false, true => [v0; v1]
    | false, true, true => vertex_and_crossing plane v0 v1 v2
    | true, false, true => vertex_and_crossing plane v1 v0 v2
    | true, true, false => vertex_and_crossing plane v2 v0 v1
    | true, true, true =>
        match crossings plane [(v0, v1); (v1, v2); (v0, v2)] with
        | p :: q :: _ => [p; q]
        | _ => []
        end
    end.

(** The triangle of the specification's example: one vertex below the
    plane [z = 0], two above. *)
Definition unit_mesh : Mesh :=
  mkMesh [mkV3 0 0 (-1); mkV3 1 0 1; mkV3 0 1 1] [0; 1; 2]%nat.

(** ** Doubles that may leave the finite numbers *)

(** A value of a float array: an exact rational, an infinity or NaN. *)
Inductive xnum : Type :=
| Fin (q : Q)
| PInf
| NInf
| NaN.

(** [np.sign] on a finite number. *)
Definition sign (q : Q) : Q :=
  if Qltb q 0 then - (1) else if Qltb 0 q then 1 else 0.

Definition xadd (a b : xnum) : xnum :=
  match a, b with
  | NaN, _ | _, NaN => NaN
  | Fin x, Fin y => Fin (x + y)
  | PInf, NInf | NInf, PInf => NaN
  | PInf, _ | _, PInf => PInf
  | NInf, _ | _, NInf => NInf
  end.

Definition xopp (a : xnum) : xnum :=
  match a with
  | Fin x => Fin (- x)
  | PInf => NInf
  | NInf => PInf
  | NaN => NaN
  end.

Definition xsub (a b : xnum) : xnum := xadd a (xopp b).

(** An infinity with the sign of [s]; [0 * inf] is NaN. *)
Definition inf_signed (s : Q) : xnum :=
  if Qltb 0 s then PInf else if Qltb s 0 then NInf else NaN.

Definition xmul (a b : xnum) : xnum :=
  match a, b with
  | NaN, _ | _, NaN => NaN
  | Fin x, Fin y => Fin (x * y)
  | Fin x, PInf | PInf, Fin x => inf_signed x
  | Fin x, NInf | NInf, Fin x => inf_signed (- x)
  | PInf, PInf | NInf, NInf => PInf
  | PInf, NInf | NInf, PInf => NInf
  end.

(** Division; a zero divisor is taken as [+0.0], which is what a sum of
    squares gives. *)
Definition xdiv (a b : xnum) : xnum :=
  match a, b with
  | NaN, _ | _, NaN => NaN
  | Fin x, Fin y => if Qeq_bool y 0 then inf_signed x else Fin (x / y)
  | Fin _, PInf | Fin _, NInf => Fin 0
  | PInf, Fin y => if Qltb y 0 then NInf else PInf
  | NInf, Fin y => if Qltb y 0 then PInf else NInf
  | _, _ => NaN
  end.

(** [np.minimum] and [np.maximum]: NaN wins. *)
Definition xminimum (a b : xnum) : xnum :=
  match a, b with
  | NaN, _ | _, NaN => NaN
  | NInf, _ | _, NInf => NInf
  | PInf, x | x, PInf => x
  | Fin x, Fin y => Fin (if Qle_bool x y then x else y)
  end.

Definition xmaximum (a b : xnum) : xnum :=
  match a, b with
  | NaN, _ | _, NaN => NaN
  | PInf, _ | _, PInf => PInf
  | NInf, x | x, NInf => x
  | Fin x, Fin y => Fin (if Qle_bool x y then y else x)
  end.

(** [np.clip(a, lo, hi)] is [minimum(maximum(a, lo), hi)]. *)
Definition xclip (a : xnum) (lo hi : Q) : xnum :=
  xminimum (xmaximum a (Fin lo)) (Fin hi).

(** [a >= b] on doubles: false as soon as one side is NaN. *)
Definition xge (a b : xnum) : bool :=
  match a, b with
  | NaN, _ | _, NaN => false
  | PInf, _ | _, NInf => true
  | Fin _, PInf | NInf, _ => false
  | Fin x, Fin y => Qle_bool y x
  end.

Definition isnan (a : xnum) : bool :=
  match a with
  | NaN => true
  | _ => false
  end.

(** The loop of numpy's [argmin] for doubles ([DOUBLE_argmin]): [mp] is
    the minimum so far and [min_ind] its index; an entry replaces it when
    [not (entry >= mp)], and the scan stops at the first NaN. *)
Fixpoint argmin_from (mp : xnum) (min_ind i : nat) (l : list xnum) : nat :=
  match l with
  | [] => min_ind
  | x :: r =>
      if isnan mp then min_ind
      else if negb (xge x mp) then argmin_from x i (S i) r
      else argmin_from mp min_ind (S i) r
  end.

(** [arr.argmin()]; an empty array raises [ValueError]. *)
Definition argmin (arr : list xnum) : result nat :=
  match arr with
  | [] => Raise ValueError
  | x :: r => Ok (argmin_from x 0 1 r)
  end.

(** Vectors of such values. *)
Record XV3 : Type := mkXV3 { xvx : xnum; xvy : xnum; xvz : xnum }.

(** [oo * w[:, np.newaxis] - ooo] on one row. *)
Definition scale_sub (oo : V3) (w : xnum) (ooo : V3) : XV3 :=
  mkXV3 (xsub (xmul (Fin (vx oo)) w) (Fin (vx ooo)))
        (xsub (xmul (Fin (vy oo)) w) (Fin (vy ooo)))
        (xsub (xmul (Fin (vz oo)) w) (Fin (vz ooo))).

Definition xdot (a b : XV3) : xnum :=
  xadd (xadd (xmul (xvx a) (xvx b)) (xmul (xvy a) (xvy b))) (xmul (xvz a) (xvz b)).

(** ** More numpy idioms *)

Fixpoint zipWith {A B C : Type} (f : A -> B -> C) (la : list A) (lb : list B) : list C :=
  match la, lb with
  | a :: ra, b :: rb => f a b :: zipWith f ra rb
  | _, _ => []
  end.

(** [np.einsum('ij,ij->i', a, b)]: the row-wise dot product. *)
Definition einsum (a b : list V3) : list Q := zipWith dot a b.
Definition xeinsum (a b : list XV3) : list xnum := zipWith xdot a b.

(** [arr[mask]] with a boolean mask. *)
Fixpoint select {A : Type} (mask : list bool) (arr : list A) : list A :=
  match mask, arr with
  | m :: mask', a :: arr' => if m then a :: select mask' arr' else select mask' arr'
  | _, _ => []
  end.

(** [dst[mask] = src]: the entries of [src] go, in order, to the positions
    of [dst] that [mask] selects.  ([src] has as many entries as [mask]
    selects wherever the code does this.) *)
Fixpoint assign {A : Type} (mask : list bool) (dst src : list A) : list A :=
  match mask, dst with
  | m :: mask', d :: dst' =>
      if m then
        match src with
        | s :: src' => s :: assign mask' dst' src'
        | [] => d :: dst'
        end
      else d :: assign mask' dst' src
  | _, _ => dst
  end.

Fixpoint zipWith3 {A B C D : Type} (f : A -> B -> C -> D)
         (la : list A) (lb : list B) (lc : list C) : list D :=
  match la, lb, lc with
  | a :: ra, b :: rb, c :: rc => f a b c :: zipWith3 f ra rb rc
  | _, _, _ => []
  end.

(** ** geometry.py: closest_triangle_to_point *)

(** The arrays computed before the loop over the points, one entry per
    face in each. *)
Record Pre : Type := mkPre {
  v1 : list V3; v2 : list V3; v3 : list V3;
  v21 : list V3; v32 : list V3; v13 : list V3;
  nor : list V3;
  c13 : list V3; c32 : list V3; c21 : list V3;
  dot_v21 : list xnum; dot_v32 : list xnum; dot_v13 : list xnum;
  dot_nor : list xnum
}.

(** [1.0 / arr] *)
Definition reciprocal (arr : list Q) : list xnum :=
  map (fun q => xdiv (Fin 1) (Fin q)) arr.

Definition precompute (faces : list Face3) : Pre :=
  let v1 := map (fun f => fst (fst f)) faces in
  let v2 := map (fun f => snd (fst f)) faces in
  let v3 := map (fun f => snd f) faces in
  let v21 := zipWith vsub v2 v1 in
  let v32 := zipWith vsub v3 v2 in
  let v13 := zipWith vsub v1 v3 in
  let nor := zipWith cross v21 v13 in
  let c13 := zipWith cross v13 nor in
  let c32 := zipWith cross v32 nor in
  let c21 := zipWith cross v21 nor in
  let dot_v21 := reciprocal (einsum v21 v21) in
  let dot_v32 := reciprocal (einsum v32 v32) in
  let dot_v13 := reciprocal (einsum v13 v13) in
  let dot_nor := reciprocal (einsum nor nor) in
  mkPre v1 v2 v3 v21 v32 v13 nor c13 c32 c21 dot_v21 dot_v32 dot_v13 dot_nor.

(** [oo * np.clip(einsum(oo, ooo) * r, 0.0, 1.0)[:, np.newaxis] - ooo],
    then its squared norm. *)
Definition edge_temp (oo ooo : list V3) (r : list xnum) : list xnum :=
  let w := map (fun x => xclip x 0 1)
               (zipWith (fun e ri => xmul (Fin e) ri) (einsum oo ooo) r) in
  let temp := zipWith3 scale_sub oo w ooo in
  xeinsum temp temp.

(** The array [dist] of one iteration of the loop over the points. *)
Definition point_dist (pre : Pre) (point : V3) : list xnum :=
  let dist := map (fun _ => Fin 0) (v1 pre) in
  let p1 := map (fun v => vsub point v) (v1 pre) in
  let p2 := map (fun v => vsub point v) (v2 pre) in
  let p3 := map (fun v => vsub point v) (v3 pre) in
  let mask :=
    zipWith3 (fun a b c => a + b + c)
             (map sign (einsum (c21 pre) p1))
             (map sign (einsum (c32 pre) p2))
             (map sign (einsum (c13 pre) p3)) in
  let mask := map (fun m => Qltb m 2) mask in
  let temp := edge_temp (select mask (v21 pre)) (select mask p1)
                        (select mask (dot_v21 pre)) in
  let temp_2 := edge_temp (select mask (v32 pre)) (select mask p2)
                          (select mask (dot_v32 pre)) in
  let temp_3 := edge_temp (select mask (v13 pre)) (select mask p3)
                          (select mask (dot_v13 pre)) in
  let inv_mask := map negb mask in
  let temp_4 := einsum (select inv_mask (nor pre)) (select inv_mask p1) in
  let dist :=
    assign inv_mask dist
           (zipWith (fun t r => xmul (xmul (Fin t) (Fin t)) r)
                    temp_4 (select inv_mask (dot_nor pre))) in
  assign mask dist (zipWith xminimum temp (zipWith xminimum temp_2 temp_3)).

Definition closest_triangle_to_point (faces : list Face3) (points : list V3)
  : result (list Face3) :=
  let pre := precompute faces in
  mapM (fun point =>
          let dist := point_dist pre point in
          i <- argmin dist ;;
          get faces i) points.

(** *** The distance of the specification *)






(** One entry of [dist]: what the array operations of [point_dist] do on
    the row of the face [f]. *)
Definition edge_row (e pv : V3) : xnum :=
  let r := xdiv (Fin 1) (Fin (dot e e)) in
  let w := xclip (xmul (Fin (dot e pv)) r) 0 1 in
  let t := scale_sub e w pv in
  xdot t t.

Definition face_dist (p : V3) (f : Face3) : xnum :=
  let e21 := vsub (snd (fst f)) (fst (fst f)) in
  let e32 := vsub (snd f) (snd (fst f)) in
  let e13 := vsub (fst (fst f)) (snd f) in
  let n := cross e21 e13 in
  let p1 := vsub p (fst (fst f)) in
  let p2 := vsub p (snd (fst f)) in
  let p3 := vsub p (snd f) in
  if Qltb (sign (dot (cross e21 n) p1) + sign (dot (cross e32 n) p2) +
           sign (dot (cross e13 n) p3)) 2
  then xminimum (edge_row e21 p1) (xminimum (edge_row e32 p2) (edge_row e13 p3))
  else xmul (xmul (Fin (dot n p1)) (Fin (dot n p1))) (xdiv (Fin 1) (Fin (dot n n))).

(** Equality of array values, rationals up to their value. *)
Definition xeq (a b : xnum) : Prop :=
  match a, b with
  | Fin x, Fin y => x == y
  | PInf, PInf | NInf, NInf | NaN, NaN => True
  | _, _ => False
  end.



(** The face that one iteration of the loop appends for the point [p]:
    [faces[dist.argmin()]]. *)
Definition chosen (faces : list Face3) (p : V3) (f : Face3) : Prop :=
  exists i : nat,
    argmin (point_dist (precompute faces) p) = Ok i /\ nth_error faces i = Some f.


(** Two faces for the examples: the right triangle in the plane [z = 0],
    and a face whose three vertices coincide. *)
Definition tri_good : Face3 := (mkV3 0 0 0, mkV3 1 0 0, mkV3 0 1 0).
Definition tri_point : Face3 := (mkV3 5 5 5, mkV3 5 5 5, mkV3 5 5 5).

(** ** volume.py: Curve *)

Inductive CurveType : Type := Cubic | Linear.

(** [np.clip(x, lo, hi)] on a finite number. *)
Definition clip (x lo hi : Q) : Q :=
  let m := if Qle_bool x lo then lo else x in
  if Qle_bool m hi then m else hi.

(** [arr[-1]] *)
Definition get_last {A : Type} (arr : list A) : result A :=
  match arr with
  | [] => Raise IndexError
  | a :: r => Ok (last r a)
  end.

(** [dst[mask] = value] with one value for all selected positions. *)
Definition fill {A : Type} (mask : list bool) (dst : list A) (value : A) : list A :=
  zipWith (fun (m : bool) d => if m then value else d) mask dst.

(** [np.linspace(a, b, num)] for [num >= 2]: [a + i * step] with
    [step = (b - a) / (num - 1)], the last sample being [b]. *)
Definition linspace (a b : Q) (num : nat) : list Q :=
  let step := (b - a) / inject_Z (Z.of_nat (num - 1)) in
  map (fun i => a + inject_Z (Z.of_nat i) * step) (seq 0 (num - 1)) ++ [b].

Record Curve : Type := mkCurve {
  inputs : list Q;
  outputs : list Q;
  bounds : Q * Q;
  type : CurveType;
  f : option (Q -> Q);
  transfer_function : list Q
}.

Definition evaluate (self : Curve) (xs : list Q) : result (list Q) :=
  ys <- match f self with
        | None =>
            o0 <- get (outputs self) 0 ;;
            Ok (map (fun y => clip y 0 1) (repeat o0 (length xs)))
        | Some fit => Ok (map (fun y => clip y 0 1) (map fit xs))
        end ;;
  o0 <- get (outputs self) 0 ;;
  i0 <- get (inputs self) 0 ;;
  let ys := fill (map (fun x => Qltb x i0) xs) ys o0 in
  o1 <- get_last (outputs self) ;;
  i1 <- get_last (inputs self) ;;
  let ys := fill (map (fun x => Qltb i1 x) xs) ys o1 in
  Ok ys.

(** One entry of the result of [evaluate], at the input [x]: the second
    masked assignment wins over the first, and both over the clipped fit. *)
Definition evaluate_at (fit : option (Q -> Q)) (i0 i1 o0 o1 x : Q) : Q :=
  if Qltb i1 x then o1
  else if Qltb x i0 then o0
  else clip (match fit with Some fn => fn x | None => o0 end) 0 1.

(** [arr[:, 3] = value] on the rows of a table. *)
Definition set_column3 (rows : list (list Q)) (value : list Q) : list (list Q) :=
  zipWith (fun row v => firstn 3 row ++ [v] ++ skipn 4 row) rows value.

Section CurveFit.

(** The interpolants of scipy are outside the repository: a fit either
    fails or gives a function from intensity to alpha. *)
Variable CubicSpline : list Q -> list Q -> option (Q -> Q).
Variable interp1d : list Q -> list Q -> option (Q -> Q).

(** [Curve.__init__] *)
Definition Curve_init (inputs outputs : list Q) (bounds : Q * Q)
           (curve_type : CurveType) : result Curve :=
  let transfer_function := map (fun v => [v; v; v; v]) (linspace 0 1 256) in
  fit <- (if (1 <? length inputs)%nat then
            match curve_type with
            | Cubic => fn <- of_option FitError (CubicSpline inputs outputs) ;; Ok (Some fn)
            | Linear => fn <- of_option FitError (interp1d inputs outputs) ;; Ok (Some fn)
            end
          else Ok None) ;;
  let self := mkCurve inputs outputs bounds curve_type fit (concat transfer_function) in
  value <- evaluate self (linspace (fst bounds) (snd bounds) 256) ;;
  let transfer_function := set_column3 transfer_function value in
  Ok (mkCurve inputs outputs bounds curve_type fit (concat transfer_function)).

End CurveFit.

(** A fitting library that always fails; curves with a single point never
    call it. *)
Definition no_fit (xs ys : list Q) : option (Q -> Q) := None.

(** A piecewise-linear fit through two points, standing for scipy in the
    examples with two points. *)
Definition line_fit (xs ys : list Q) : option (Q -> Q) :=
  match xs, ys with
  | [x0; x1], [y0; y1] => Some (fun x => y0 + (x - x0) * ((y1 - y0) / (x1 - x0)))
  | _, _ => None
  end.

Definition in01 (y : Q) : Prop := 0 <= y /\ y <= 1.

(** Inputs in strictly increasing order, as the data model of the curve
    has them. *)
Fixpoint increasing (l : list Q) : bool :=
  match l with
  | a :: (b :: _) as r => Qltb a b && increasing r
  | _ => true
  end.

(** The range property as the specification has it, for one curve: every
    evaluation gives values in [0,1]. *)
Definition evaluate_in_range (c : Curve) : Prop :=
  forall xs ys, evaluate c xs = Ok ys -> Forall in01 ys.

(** The constant-curve property as the specification has it: every
    evaluation gives the first output clamped to [0,1]. *)
Definition evaluate_constant (c : Curve) : Prop :=
  f c = None /\
  forall xs ys, evaluate c xs = Ok ys ->
    exists o0, get (outputs c) 0 = Ok o0 /\ Forall (fun y => y = clip o0 0 1) ys.

(** The construction rule as the specification has it: the constructor
    raises [InvalidCurveDefinition] exactly when the lengths differ. *)
Definition construction_checks_lengths
           (spline lin : list Q -> list Q -> option (Q -> Q))
           (inputs outputs : list Q) (bounds : Q * Q) (curve_type : CurveType) : Prop :=
  Curve_init spline lin inputs outputs bounds curve_type = Raise InvalidCurveDefinition
  <-> length inputs <> length outputs.

(** ** Matrices and bounding boxes *)

Record V4 : Type := mkV4 { x4 : Q; y4 : Q; z4 : Q; w4 : Q }.

Definition dot4 (a b : V4) : Q :=
  x4 a * x4 b + y4 a * y4 b + z4 a * z4 b + w4 a * w4 b.

Definition v4eq (a b : V4) : Prop :=
  x4 a == x4 b /\ y4 a == y4 b /\ z4 a == z4 b /\ w4 a == w4 b.

(** Modelled from the spec: [Matrix44] ([sscanss.core.math.matrix]) is not
    under src/.  The specification calls the placement of a volume "a 4x4
    homogeneous transform": a matrix of four rows of four numbers, with
    [identity], [fromTranslation] and the matrix product [@]. *)
Record Matrix44 : Type := mkMatrix44 { r0 : V4; r1 : V4; r2 : V4; r3 : V4 }.

(** Modelled from the spec: the 4x4 identity. *)
Definition Matrix44_identity : Matrix44 :=
  mkMatrix44 (mkV4 1 0 0 0) (mkV4 0 1 0 0) (mkV4 0 0 1 0) (mkV4 0 0 0 1).

(** Modelled from the spec: the identity with the offset in the last
    column ("translation-only at construction"). *)
Definition Matrix44_fromTranslation (t : V3) : Matrix44 :=
  mkMatrix44 (mkV4 1 0 0 (vx t)) (mkV4 0 1 0 (vy t)) (mkV4 0 0 1 (vz t)) (mkV4 0 0 0 1).

(** One row of a product: the combination of the rows of [a] with the
    coefficients [b]. *)
Definition row_times (b : V4) (a : Matrix44) : V4 :=
  mkV4 (x4 b * x4 (r0 a) + y4 b * x4 (r1 a) + z4 b * x4 (r2 a) + w4 b * x4 (r3 a))
       (x4 b * y4 (r0 a) + y4 b * y4 (r1 a) + z4 b * y4 (r2 a) + w4 b * y4 (r3 a))
       (x4 b * z4 (r0 a) + y4 b * z4 (r1 a) + z4 b * z4 (r2 a) + w4 b * z4 (r3 a))
       (x4 b * w4 (r0 a) + y4 b * w4 (r1 a) + z4 b * w4 (r2 a) + w4 b * w4 (r3 a)).

(** Modelled from the spec: the matrix product [b @ a]. *)
Definition matmul (b a : Matrix44) : Matrix44 :=
  mkMatrix44 (row_times (r0 b) a) (row_times (r1 b) a)
             (row_times (r2 b) a) (row_times (r3 b) a).

(** A homogeneous point passed through a matrix. *)
Definition mulv (m : Matrix44) (p : V4) : V4 :=
  mkV4 (dot4 (r0 m) p) (dot4 (r1 m) p) (dot4 (r2 m) p) (dot4 (r3 m) p).

(** A 3x3 matrix, the argument of [rotate]. *)
Record Matrix33 : Type := mkMatrix33 { m0 : V3; m1 : V3; m2 : V3 }.

(** [rot_matrix = Matrix44.identity(); rot_matrix[:3, :3] = matrix[:3, :3]] *)
Definition embed_rotation (matrix : Matrix33) : Matrix44 :=
  let i := Matrix44_identity in
  mkMatrix44 (mkV4 (vx (m0 matrix)) (vy (m0 matrix)) (vz (m0 matrix)) (w4 (r0 i)))
             (mkV4 (vx (m1 matrix)) (vy (m1 matrix)) (vz (m1 matrix)) (w4 (r1 i)))
             (mkV4 (vx (m2 matrix)) (vy (m2 matrix)) (vz (m2 matrix)) (w4 (r2 i)))
             (r3 i).

(** Modelled from the spec: [BoundingBox] ([sscanss.core.geometry.mesh])
    is not under src/.  The specification has "an axis-aligned bounding box
    in local space transformed into world space" and speaks of its corners
    and of translating it "vertex-wise": a box is its eight corners, in
    homogeneous coordinates. *)
Record BoundingBox : Type := mkBoundingBox { corners : list V4 }.

(** Modelled from the spec: [BoundingBox(max_position, min_position)], the
    axis-aligned box between the two positions. *)
Definition BoundingBox_new (max_pos min_pos : V3) : BoundingBox :=
  mkBoundingBox
    (map (fun c => mkV4 (fst (fst c)) (snd (fst c)) (snd c) 1)
         (list_prod (list_prod [vx min_pos; vx max_pos] [vy min_pos; vy max_pos])
                    [vz min_pos; vz max_pos])).

(** Modelled from the spec: [BoundingBox.transform(matrix)], the box
    "passed through" the transform, corner by corner. *)
Definition BoundingBox_transform (box : BoundingBox) (matrix : Matrix44) : BoundingBox :=
  mkBoundingBox (map (mulv matrix) (corners box)).

Definition box_eq (a b : BoundingBox) : Prop := Forall2 v4eq (corners a) (corners b).

(** ** volume.py: Volume *)

(** A 3-D array of 8-bit samples: its shape and its samples by index. *)
Record ndarray : Type := mkArray {
  shape : list Z;
  sample : list Z -> Z
}.

(** [arr.nbytes] for 8-bit samples. *)
Definition nbytes (arr : ndarray) : Z := fold_right Z.mul 1%Z (shape arr).

(** Python's [round] on a float: to the nearest integer, a tie going to
    the even one. *)
Definition round_half_even (x : Q) : Z :=
  let fl := Qfloor x in
  let frac := x - inject_Z fl in
  if Qltb frac (1 # 2) then fl
  else if Qltb (1 # 2) frac then (fl + 1)%Z
  else if Z.even fl then fl else (fl + 1)%Z.

(** [np.max(shape)]; an empty sequence raises [ValueError]. *)
Definition np_max (l : list Z) : result Z :=
  match l with
  | [] => Raise ValueError
  | a :: r => Ok (fold_left Z.max r a)
  end.

Record Volume : Type := mkVolume {
  data : ndarray;
  histogram : list Q * list Q;
  curve : Curve;
  voxel_size : V3;
  transform_matrix : Matrix44;
  bounding_box : BoundingBox;
  render_target : ndarray
}.

(** The property [Volume.shape] *)
Definition Volume_shape (self : Volume) : list Z := shape (data self).

(** The product [voxel_size * shape] of a 3-vector and a shape. *)
Definition times_shape (voxel_size : V3) (shp : list Z) : V3 :=
  mkV3 (vx voxel_size * inject_Z (nth 0 shp 0%Z))
       (vy voxel_size * inject_Z (nth 1 shp 0%Z))
       (vz voxel_size * inject_Z (nth 2 shp 0%Z)).

(** The property [Volume.extent] *)
Definition Volume_extent (self : Volume) : V3 :=
  times_shape (voxel_size self) (Volume_shape self).

(** [Volume.transform] *)
Definition Volume_transform (self : Volume) (matrix : Matrix44) : Volume :=
  mkVolume (data self) (histogram self) (curve self) (voxel_size self)
           (matmul matrix (transform_matrix self))
           (BoundingBox_transform (bounding_box self) matrix)
           (render_target self).

(** [Volume.rotate] *)
Definition Volume_rotate (self : Volume) (matrix : Matrix33) : Volume :=
  let rot_matrix := embed_rotation matrix in
  Volume_transform self rot_matrix.

(** [Volume.translate] *)
Definition Volume_translate (self : Volume) (offset : V3) : Volume :=
  let matrix := Matrix44_fromTranslation offset in
  Volume_transform self matrix.

Section VolumeLibraries.

(** scipy's interpolants and [zoom], and [fast_histogram.histogram1d]. *)
Variable CubicSpline : list Q -> list Q -> option (Q -> Q).
Variable interp1d : list Q -> list Q -> option (Q -> Q).
Variable histogram1d : ndarray -> list Q.
Variable zoom : ndarray -> Q -> list Z -> list Z -> Z.

(** [Volume.bin], on the data of the volume.  A largest dimension of 0
    makes [scale] infinite or NaN and [round] raises; [np.zeros] raises
    on a negative dimension. *)
Definition bin (data : ndarray) (max_dim : Z) : result ndarray :=
  largest <- np_max (shape data) ;;
  if (largest =? 0)%Z then Raise ValueError
  else
    let scale := inject_Z max_dim / inject_Z largest in
    let new_shape := map (fun dim => round_half_even (inject_Z dim * scale)) (shape data) in
    if forallb (fun d => (0 <=? d)%Z) new_shape then
      Ok (mkArray new_shape (zoom data scale new_shape))
    else Raise ValueError.

(** [Volume.__init__] *)
Definition Volume_init (data : ndarray) (voxel_size centre : V3)
           (max_bytes : Q) (max_dim : Z) : result Volume :=
  let histogram := (histogram1d data, linspace 0 255 257) in
  i0 <- get (snd histogram) 0 ;;
  i1 <- get_last (snd histogram) ;;
  let inputs := [i0; i1] in
  let outputs := [0; 1] in
  curve <- Curve_init CubicSpline interp1d inputs outputs (i0, i1) Cubic ;;
  let transform_matrix := Matrix44_fromTranslation centre in
  let extent := times_shape voxel_size (shape data) in
  let bounding_box := BoundingBox_new (vscale (1 # 2) extent)
                                      (vscale (- (1 # 2)) extent) in
  let bounding_box := BoundingBox_transform bounding_box transform_matrix in
  render_target <- (if Qltb max_bytes (inject_Z (nbytes data))
                    then bin data max_dim else Ok data) ;;
  Ok (mkVolume data histogram curve voxel_size transform_matrix bounding_box
               render_target).

End VolumeLibraries.

(** The calls that move a volume. *)
Inductive mutator : Type :=
| Rotate (matrix : Matrix33)
| Translate (offset : V3)
| Transform (matrix : Matrix44).

Definition mutate (self : Volume) (call : mutator) : Volume :=
  match call with
  | Rotate matrix => Volume_rotate self matrix
  | Translate offset => Volume_translate self offset
  | Transform matrix => Volume_transform self matrix
  end.

(** The 4x4 matrix that a call composes on the left. *)
Definition matrix_of (call : mutator) : Matrix44 :=
  match call with
  | Rotate matrix => embed_rotation matrix
  | Translate offset => Matrix44_fromTranslation offset
  | Transform matrix => matrix
  end.

(** The local box of a volume: half-extents [voxel_size * shape / 2]
    around the origin. *)
Definition local_box (self : Volume) : BoundingBox :=
  BoundingBox_new (vscale (1 # 2) (Volume_extent self))
                  (vscale (- (1 # 2)) (Volume_extent self)).

(** The box of a volume is its local box under its transform. *)
Definition box_placed (self : Volume) : Prop :=
  box_eq (bounding_box self) (BoundingBox_transform (local_box self) (transform_matrix self)).


(** Stand-ins for the libraries in the examples. *)
Definition no_histogram (arr : ndarray) : list Q := repeat 0 256.
Definition no_zoom (arr : ndarray) (scale : Q) (new_shape idx : list Z) : Z := 0%Z.
Definition blank (shp : list Z) : ndarray := mkArray shp (fun _ => 0%Z).

(** *** The placement of a volume, written out *)

(** The half-extents [voxel_size * shape / 2] of a grid of shape
    (s1, s2, s3). *)
Definition half_extent (voxel_size : V3) (s1 s2 s3 : Z) : V3 :=
  mkV3 (vx voxel_size * inject_Z s1 / 2)
       (vy voxel_size * inject_Z s2 / 2)
       (vz voxel_size * inject_Z s3 / 2).

(** The eight corners of the axis-aligned box of half-extents [h] around
    the origin. *)
Definition centred_corners (h : V3) : list V4 :=
  [mkV4 (- vx h) (- vy h) (- vz h) 1; mkV4 (- vx h) (- vy h) (vz h) 1;
   mkV4 (- vx h) (vy h) (- vz h) 1;   mkV4 (- vx h) (vy h) (vz h) 1;
   mkV4 (vx h) (- vy h) (- vz h) 1;   mkV4 (vx h) (- vy h) (vz h) 1;
   mkV4 (vx h) (vy h) (- vz h) 1;     mkV4 (vx h) (vy h) (vz h) 1].

(** The 4x4 matrix that each call stands for, entry by entry: a rotation
    has the 3x3 matrix in its upper left corner, a translation the offset in
    its last column, both with the last row 0 0 0 1. *)
Definition placement (call : mutator) : Matrix44 :=
  match call with
  | Rotate m =>
      mkMatrix44 (mkV4 (vx (m0 m)) (vy (m0 m)) (vz (m0 m)) 0)
                 (mkV4 (vx (m1 m)) (vy (m1 m)) (vz (m1 m)) 0)
                 (mkV4 (vx (m2 m)) (vy (m2 m)) (vz (m2 m)) 0)
                 (mkV4 0 0 0 1)
  | Translate t =>
      mkMatrix44 (mkV4 1 0 0 (vx t)) (mkV4 0 1 0 (vy t)) (mkV4 0 0 1 (vz t))
                 (mkV4 0 0 0 1)
  | Transform m => m
  end.

(** The image of a homogeneous point under a 4x4 matrix, coordinate by
    coordinate. *)
Definition through (m : Matrix44) (p : V4) : V4 :=
  mkV4 (x4 (r0 m) * x4 p + y4 (r0 m) * y4 p + z4 (r0 m) * z4 p + w4 (r0 m) * w4 p)
       (x4 (r1 m) * x4 p + y4 (r1 m) * y4 p + z4 (r1 m) * z4 p + w4 (r1 m) * w4 p)
       (x4 (r2 m) * x4 p + y4 (r2 m) * y4 p + z4 (r2 m) * z4 p + w4 (r2 m) * w4 p)
       (x4 (r3 m) * x4 p + y4 (r3 m) * y4 p + z4 (r3 m) * z4 p + w4 (r3 m) * w4 p).

(** The calls of the example: a shift along y, a quarter turn about z, a
    shift along z given as a full matrix. *)
Definition example_calls : list mutator :=
  [Translate (mkV3 0 1 0);
   Rotate (mkMatrix33 (mkV3 0 (- (1)) 0) (mkV3 1 0 0) (mkV3 0 0 1));
   Transform (mkMatrix44 (mkV4 1 0 0 0) (mkV4 0 1 0 0) (mkV4 0 0 1 5) (mkV4 0 0 0 1))].

(** ** Further definitions for the properties of the code *)





(** ** misc.py: clamp *)

(** Python's [min] and [max] of two numbers keep the first argument unless
    the second is strictly better. *)
Definition py_min (a b : Q) : Q := if Qltb b a then b else a.
Definition py_max (a b : Q) : Q := if Qltb a b then b else a.

(** [clamp(value, min_value, max_value)]; the defaults of the two bounds
    are 0.0 and 1.0. *)
Definition clamp (value min_value max_value : Q) : Q :=
  py_max (py_min value max_value) min_value.

(* ================================================================= *)
(** * Properties *)

(** ** Boolean comparisons *)

Lemma Qltb_lt (a b : Q) : Qltb a b = true <-> a < b.
Proof.
  unfold Qltb. rewrite negb_true_iff.
  split; intro H.
  - apply Qnot_le_lt. intro Hle. apply Qle_bool_iff in Hle. congruence.
  - destruct (Qle_bool b a) eqn:E; [|reflexivity].
    apply Qle_bool_iff in E. apply Qle_not_lt in E. contradiction.
Qed.

Lemma Qltb_ge (a b : Q) : Qltb a b = false <-> b <= a.
Proof.
  unfold Qltb. rewrite negb_false_iff. apply Qle_bool_iff.
Qed.

Lemma Qle_bool_gt (a b : Q) : Qle_bool a b = false <-> b < a.
Proof.
  rewrite <- Qltb_lt. unfold Qltb. rewrite negb_true_iff. reflexivity.
Qed.

Lemma Qeq_bool_false (a b : Q) : Qeq_bool a b = false <-> ~ a == b.
Proof.
  split.
  - intros H E. apply Qeq_bool_iff in E. congruence.
  - intro H. destruct (Qeq_bool a b) eqn:E; [|reflexivity].
    apply Qeq_bool_iff in E. contradiction.
Qed.

(** Turns the boolean tests of a goal or hypothesis into order facts. *)
Ltac qbool :=
  repeat match goal with
  | H : Qltb _ _ = true |- _ => apply Qltb_lt in H
  | H : Qltb _ _ = false |- _ => apply Qltb_ge in H
  | H : Qle_bool _ _ = true |- _ => apply Qle_bool_iff in H
  | H : Qle_bool _ _ = false |- _ => apply Qle_bool_gt in H
  | H : Qeq_bool _ _ = true |- _ => apply Qeq_bool_iff in H
  | H : Qeq_bool _ _ = false |- _ => apply Qeq_bool_false in H
  end.

(** ** segment_plane_intersection *)













(** ** mesh_plane_intersection *)

Lemma bind_assoc {A B C : Type} (r : result A) (f : A -> result B) (g : B -> result C) :
  bind (bind r f) g = bind r (fun a => bind (f a) g).
Proof. destruct r; reflexivity. Qed.

Lemma fancy_index_flat (verts : list V3) (tris : list (nat * nat * nat)) :
  fancy_index verts (flat_indices tris) =
  (faces <- mapM (lookup_face verts) tris ;; Ok (flat_map face_list faces)).
Proof.
  unfold fancy_index.
  induction tris as [|[[i j] k] tris IH]; [reflexivity|].
  cbn [flat_indices flat_map app mapM fst snd]. fold (flat_indices tris).
  rewrite IH. unfold lookup_face. cbn [fst snd].
  destruct (get verts i) as [a|e]; [|reflexivity].
  destruct (get verts j) as [b|e]; [|reflexivity].
  destruct (get verts k) as [c|e]; [|reflexivity].
  cbn [bind].
  destruct (mapM _ tris) as [faces|e]; reflexivity.
Qed.

Lemma flat_faces_length (faces : list Face3) :
  length (flat_map face_list faces) = (3 * length faces)%nat.
Proof. induction faces as [|f faces IH]; cbn [flat_map length app face_list]; lia. Qed.

Lemma range3_faces (n : nat) : range3 (3 * n) = map (fun k => (3 * k)%nat) (seq 0 n).
Proof.
  unfold range3. f_equal. f_equal.
  replace (3 * n + 2)%nat with (2 + n * 3)%nat by lia.
  rewrite Nat.div_add by lia. reflexivity.
Qed.

Lemma slice_flat_faces (faces : list Face3) (k : nat) (f : Face3) :
  nth_error faces k = Some f ->
  slice (flat_map face_list faces) (3 * k) (3 * k + 3) = face_list f.
Proof.
  unfold slice. replace (3 * k + 3 - 3 * k)%nat with 3%nat by lia.
  revert k. induction faces as [|g faces IH]; intros k H.
  - destruct k; discriminate.
  - destruct k as [|k].
    + injection H as ->. reflexivity.
    + cbn [nth_error] in H.
      replace (3 * S k)%nat with (3 + 3 * k)%nat by lia.
      cbn [flat_map face_list app]. cbn [Nat.add skipn].
      apply IH. exact H.
Qed.

Lemma slice_map {A B : Type} (g : A -> B) (l : list A) (lo hi : nat) :
  slice (map g l) lo hi = map g (slice l lo hi).
Proof. unfold slice. rewrite skipn_map, firstn_map. reflexivity. Qed.

Lemma map_seq_nth_error {A B : Type} (l : list A) (g : A -> B) :
  forall (i : nat) (h : nat -> B),
  (forall k a, nth_error l k = Some a -> h (i + k)%nat = g a) ->
  map h (seq i (length l)) = map g l.
Proof.
  induction l as [|a l IH]; intros i h H; [reflexivity|].
  cbn [length seq map]. f_equal.
  - rewrite <- (H 0%nat a eq_refl). f_equal. lia.
  - apply IH. intros k b Hk.
    rewrite <- (H (S k) b Hk). f_equal. lia.
Qed.

Lemma reduceat_faces (plane : Plane) (P : Q -> bool) (faces : list Face3) :
  reduceat_and (map P (map (signed_dist plane) (flat_map face_list faces)))
               (range3 (length (flat_map face_list faces))) =
  map (fun f => forallb (fun b => b) (map P (map (signed_dist plane) (face_list f)))) faces.
Proof.
  rewrite flat_faces_length, range3_faces.
  unfold reduceat_and. rewrite map_map.
  apply map_seq_nth_error. intros k f Hk.
  cbn [Nat.add]. rewrite !slice_map.
  rewrite (slice_flat_faces faces k f Hk). reflexivity.
Qed.

Lemma combine_map_same {A B C : Type} (g : A -> B) (h : A -> C) (l : list A) :
  combine (map g l) (map h l) = map (fun a => (g a, h a)) l.
Proof. induction l as [|a l IH]; cbn; [|rewrite IH]; reflexivity. Qed.

Lemma foldM_map {A B T : Type} (F : T -> B -> result T) (h : A -> B) (l : list A) (s : T) :
  foldM F (map h l) s = foldM (fun s a => F s (h a)) l s.
Proof.
  revert s. induction l as [|a l IH]; intro s; [reflexivity|].
  cbn [map foldM]. destruct (F s (h a)); cbn [bind]; [apply IH|reflexivity].
Qed.

Lemma foldM_where {A T : Type} (F : T -> nat -> result T) (G : T -> A -> result T)
      (c : A -> bool) (l : list A) :
  forall i : nat,
  (forall k a s, nth_error l k = Some a -> c a = true -> F s (i + k)%nat = G s a) ->
  forall s, foldM F (where_from i (map c l)) s = foldM G (filter c l) s.
Proof.
  induction l as [|a l IH]; intros i H s; [reflexivity|].
  cbn [map where_from filter].
  assert (Hl : forall k b s, nth_error l k = Some b -> c b = true ->
                             F s (S i + k)%nat = G s b).
  { intros k b s' Hk Hc. rewrite <- (H (S k) b s' Hk Hc). f_equal. lia. }
  destruct (c a) eqn:Hc.
  - cbn [foldM]. rewrite <- (H 0%nat a s eq_refl Hc).
    replace (i + 0)%nat with i by lia.
    destruct (F s i); cbn [bind]; [|reflexivity].
    apply IH. exact Hl.
  - apply IH. exact Hl.
Qed.

Lemma foldM_append {A T : Type} (g : A -> list T) (l : list A) (s : list T) :
  foldM (fun s a => Ok (s ++ g a)) l s = Ok (s ++ flat_map g l).
Proof.
  revert s. induction l as [|a l IH]; intro s; cbn [foldM flat_map bind].
  - rewrite app_nil_r. reflexivity.
  - rewrite IH, app_assoc. reflexivity.
Qed.

Lemma flat_map_filter_nil {A B : Type} (g : A -> list B) (c : A -> bool) (l : list A) :
  (forall a, c a = false -> g a = []) ->
  flat_map g (filter c l) = flat_map g l.
Proof.
  intro H. induction l as [|a l IH]; [reflexivity|].
  cbn [filter flat_map]. destruct (c a) eqn:E.
  - cbn [flat_map]. rewrite IH. reflexivity.
  - rewrite (H a E). exact IH.
Qed.

Lemma candidate_filter (plane : Plane) (v0 v1 v2 : V3) :
  let d0 := signed_dist plane v0 in
  let d1 := signed_dist plane v1 in
  let d2 := signed_dist plane v2 in
  (Qltb 0 d0 && Qltb 0 d1 && Qltb 0 d2) || (Qltb d0 0 && Qltb d1 0 && Qltb d2 0)
  = negb (candidate plane (v0, v1, v2)).
Proof.
  unfold candidate. cbn [face_list fst snd map forallb].
  destruct (Qltb 0 (signed_dist plane v0)), (Qltb 0 (signed_dist plane v1)),
           (Qltb 0 (signed_dist plane v2)), (Qltb (signed_dist plane v0) 0),
           (Qltb (signed_dist plane v1) 0), (Qltb (signed_dist plane v2) 0);
    reflexivity.
Qed.

Lemma face_segment_not_candidate (plane : Plane) (f : Face3) :
  candidate plane f = false -> face_segment plane f = [].
Proof.
  destruct f as [[v0 v1] v2]. intro H.
  unfold face_segment. rewrite candidate_filter, H. reflexivity.
Qed.

Lemma face_body_face (plane : Plane) (faces : list Face3) (k : nat) (f : Face3)
      (segments : list V3) :
  nth_error faces k = Some f -> candidate plane f = true ->
  face_body plane (map (signed_dist plane) (flat_map face_list faces))
            (flat_map face_list faces) segments (k * 3)
  = Ok (segments ++ face_segment plane f).
Proof.
  intros Hk Hc. unfold face_body.
  replace (k * 3)%nat with (3 * k)%nat by lia.
  rewrite slice_map, (slice_flat_faces faces k f Hk).
  destruct f as [[v0 v1] v2].
  unfold face_segment. rewrite candidate_filter, Hc.
  unfold vertex_and_crossing, crossings.
  cbn [face_list fst snd map flat_map negb].
  remember (segment_plane_intersection v0 v1 plane) as s01.
  remember (segment_plane_intersection v1 v2 plane) as s12.
  remember (segment_plane_intersection v0 v2 plane) as s02.
  destruct (Qeq_bool (signed_dist plane v0) 0), (Qeq_bool (signed_dist plane v1) 0),
           (Qeq_bool (signed_dist plane v2) 0);
    cbn [negb np_where where_from length map]; unfold get; cbn;
    rewrite <- ?Heqs01, <- ?Heqs12, <- ?Heqs02;
    try (rewrite app_nil_r; reflexivity); try reflexivity;
    destruct s01, s12, s02; cbn; rewrite ?app_nil_r; reflexivity.
Qed.

Lemma candidate_indices (plane : Plane) (faces : list Face3) :
  let all_vertices := flat_map face_list faces in
  let all_dist := map (signed_dist plane) all_vertices in
  let offsets := range3 (length all_vertices) in
  let gg := reduceat_and (map (fun d => Qltb 0 d) all_dist) offsets in
  let ll := reduceat_and (map (fun d => Qltb d 0) all_dist) offsets in
  np_where (map (fun lg => negb (fst lg) && negb (snd lg)) (combine ll gg))
  = np_where (map (candidate plane) faces).
Proof.
  cbv zeta. rewrite !reduceat_faces, combine_map_same, map_map.
  reflexivity.
Qed.

Lemma mesh_faces_loop (plane : Plane) (faces : list Face3) :
  foldM (face_body plane (map (signed_dist plane) (flat_map face_list faces))
                   (flat_map face_list faces))
        (map (fun k => (k * 3)%nat) (np_where (map (candidate plane) faces))) []
  = Ok (flat_map (face_segment plane) faces).
Proof.
  rewrite foldM_map. unfold np_where.
  rewrite (foldM_where _ (fun s f => Ok (s ++ face_segment plane f))).
  - rewrite foldM_append. cbn [app]. f_equal.
    apply flat_map_filter_nil. apply face_segment_not_candidate.
  - intros k f s Hk Hc. cbn [Nat.add]. apply face_body_face; assumption.
Qed.

(** C2: on a triangular mesh (an index buffer made of triangles),
    [mesh_plane_intersection] returns the segments of the faces in face
    order, each face contributing what [face_segment] says: nothing when its
    three distances are all strictly positive or all strictly negative,
    nothing when all three are zero, the edge opposite the vertex when one
    distance is nonzero, the zero vertex and the crossing of the edge between
    the other two (when there is one) when two are nonzero, and otherwise the
    first two crossings found on the edges (0,1), (1,2), (0,2) in that
    order. *)
Theorem mesh_plane_intersection_faces
        (verts : list V3) (tris : list (nat * nat * nat)) (plane : Plane) :
  mesh_plane_intersection (mkMesh verts (flat_indices tris)) plane =
  (faces <- mapM (lookup_face verts) tris ;;
   Ok (flat_map (face_segment plane) faces)).
Proof.
  unfold mesh_plane_intersection. cbn [vertices indices].
  rewrite fancy_index_flat.
  destruct (mapM (lookup_face verts) tris) as [faces|e]; [|reflexivity].
  cbn [bind]. rewrite candidate_indices.
  destruct (length _ =? 0)%nat eqn:E.
  - apply Nat.eqb_eq in E. apply length_zero_iff_nil in E.
    rewrite <- (mesh_faces_loop plane faces). rewrite E. reflexivity.
  - apply mesh_faces_loop.
Qed.

(** The example of the specification: the plane [z = 0] and the triangle
    (0,0,-1), (1,0,1), (0,1,1) give one segment, both ends in the plane. *)
Example unit_triangle_section :
  exists p q, mesh_plane_intersection unit_mesh c3_plane = Ok [p; q] /\
              vz p == 0 /\ vz q == 0.
Proof.
  eexists. eexists. split; [vm_compute; reflexivity|].
  split; reflexivity.
Qed.

(** A mesh strictly above the plane gives no segment. *)
Example mesh_above_plane :
  mesh_plane_intersection
    (mkMesh [mkV3 0 0 1; mkV3 1 0 2; mkV3 0 1 3] [0; 1; 2; 2; 1; 0]%nat) c3_plane = Ok [].
Proof. reflexivity. Qed.

(** An index outside the vertex buffer raises. *)
Example mesh_bad_index :
  mesh_plane_intersection (mkMesh [mkV3 0 0 1] [0; 1; 2]%nat) c3_plane = Raise IndexError.
Proof. reflexivity. Qed.

(** ** closest_triangle_to_point *)

Lemma point_dist_rows (faces : list Face3) (p : V3) :
  point_dist (precompute faces) p = map (face_dist p) faces.
Proof.
  induction faces as [|f faces IH]; [reflexivity|].
  cbn [map]. rewrite <- IH. clear IH.
  unfold point_dist, precompute, edge_temp, einsum, xeinsum, reciprocal.
  cbn [v1 v2 v3 v21 v32 v13 nor c13 c32 c21 dot_v21 dot_v32 dot_v13 dot_nor
       map zipWith zipWith3].
  unfold face_dist.
  destruct (Qltb _ 2); cbn [negb select assign map zipWith zipWith3]; reflexivity.
Qed.












Lemma argmin_from_bound (l : list xnum) :
  forall (mp : xnum) (min_ind i : nat),
  (min_ind < i)%nat -> (argmin_from mp min_ind i l < i + length l)%nat.
Proof.
  induction l as [|x l IH]; intros mp min_ind i H; cbn [argmin_from length].
  - lia.
  - destruct (isnan mp); [lia|].
    destruct (negb (xge x mp)).
    + specialize (IH x i (S i)). lia.
    + specialize (IH mp min_ind (S i)). lia.
Qed.

Lemma argmin_bound (l : list xnum) :
  l <> [] -> exists i, argmin l = Ok i /\ (i < length l)%nat.
Proof.
  destruct l as [|x l]; [congruence|]. intros _.
  eexists. split; [reflexivity|].
  pose proof (argmin_from_bound l x 0%nat 1%nat). cbn [length]. lia.
Qed.



Lemma Forall2_nth_l {A B : Type} (P : A -> B -> Prop) (l1 : list A) (l2 : list B) :
  Forall2 P l1 l2 ->
  forall k a, nth_error l1 k = Some a -> exists b, nth_error l2 k = Some b /\ P a b.
Proof.
  induction 1 as [|x y l1 l2 Hxy _ IH]; intros [|k] a Hk; cbn [nth_error] in *;
    try discriminate.
  - injection Hk as <-. exists y. split; [reflexivity|exact Hxy].
  - apply IH. exact Hk.
Qed.

Lemma Forall2_nth_r {A B : Type} (P : A -> B -> Prop) (l1 : list A) (l2 : list B) :
  Forall2 P l1 l2 ->
  forall k b, nth_error l2 k = Some b -> exists a, nth_error l1 k = Some a /\ P a b.
Proof.
  induction 1 as [|x y l1 l2 Hxy _ IH]; intros [|k] b Hk; cbn [nth_error] in *;
    try discriminate.
  - injection Hk as <-. exists x. split; [reflexivity|exact Hxy].
  - apply IH. exact Hk.
Qed.

Lemma mapM_ok {A B : Type} (body : A -> result B) (P : A -> B -> Prop) (l : list A) :
  (forall a, In a l -> exists b, body a = Ok b /\ P a b) ->
  exists bs, mapM body l = Ok bs /\ Forall2 P l bs.
Proof.
  induction l as [|a l IH]; intro H.
  - exists []. split; [reflexivity|constructor].
  - destruct (H a (or_introl eq_refl)) as [b [Hb Pb]].
    destruct IH as [bs [Hbs Pbs]].
    { intros a' Ha'. apply H. right. exact Ha'. }
    exists (b :: bs). cbn [mapM]. rewrite Hb, Hbs. split; [reflexivity|].
    constructor; assumption.
Qed.

Lemma point_dist_length (faces : list Face3) (p : V3) :
  length (point_dist (precompute faces) p) = length faces.
Proof. rewrite point_dist_rows. apply length_map. Qed.

Lemma chosen_exists (faces : list Face3) (p : V3) :
  faces <> [] ->
  exists f, (i <- argmin (point_dist (precompute faces) p) ;; get faces i) = Ok f /\
            chosen faces p f.
Proof.
  intro Hne.
  destruct (argmin_bound (point_dist (precompute faces) p)) as [i [Hi Hlt]].
  { intro E. apply (f_equal (@length xnum)) in E.
    rewrite point_dist_length in E. destruct faces; [congruence|discriminate]. }
  rewrite point_dist_length in Hlt.
  destruct (nth_error faces i) as [f|] eqn:Hf.
  - exists f. rewrite Hi. cbn [bind]. unfold get. rewrite Hf. split; [reflexivity|].
    exists i. split; assumption.
  - apply nth_error_None in Hf. lia.
Qed.

Lemma closest_rows (faces : list Face3) (points : list V3) :
  faces <> [] ->
  exists res : list Face3,
    closest_triangle_to_point faces points = Ok res /\
    length res = length points /\
    (forall k p, nth_error points k = Some p ->
                 exists f, nth_error res k = Some f /\ chosen faces p f) /\
    (forall f, In f res -> In f faces).
Proof.
  intro Hne. unfold closest_triangle_to_point. cbv zeta.
  destruct (mapM_ok (fun point => i <- argmin (point_dist (precompute faces) point) ;;
                                  get faces i)
                    (chosen faces) points) as [res [Hres HF]].
  { intros p _. apply chosen_exists. exact Hne. }
  exists res. split; [exact Hres|]. split; [|split].
  - symmetry. eapply Forall2_length. exact HF.
  - intros k p Hk. apply (Forall2_nth_l _ _ _ HF k p Hk).
  - intros f Hin. apply In_nth_error in Hin. destruct Hin as [k Hk].
    destruct (Forall2_nth_r _ _ _ HF k f Hk) as [p [_ [i [_ Hi]]]].
    eapply nth_error_In. exact Hi.
Qed.

(** C10: for a batch with at least one face, [closest_triangle_to_point]
    returns one row per query point, the row at position [k] being the face
    [faces[dist.argmin()]] chosen for the point at position [k], and every
    returned row is a row of [faces]. *)
Theorem closest_triangle_rows (faces : list Face3) (points : list V3) :
  faces <> [] ->
  exists res : list Face3,
    closest_triangle_to_point faces points = Ok res /\
    length res = length points /\
    (forall k p, nth_error points k = Some p ->
                 exists f, nth_error res k = Some f /\ chosen faces p f) /\
    (forall f, In f res -> In f faces).
Proof. apply closest_rows. Qed.

Lemma closest_triangle_rows_witness :
  exists res : list Face3,
    closest_triangle_to_point [tri_good; tri_point] [mkV3 2 2 1; mkV3 0 0 0] = Ok res /\
    length res = 2%nat /\
    (forall k p, nth_error [mkV3 2 2 1; mkV3 0 0 0] k = Some p ->
                 exists f, nth_error res k = Some f /\ chosen [tri_good; tri_point] p f) /\
    (forall f, In f res -> In f [tri_good; tri_point]).
Proof.
  apply (closest_triangle_rows [tri_good; tri_point] [mkV3 2 2 1; mkV3 0 0 0]).
  discriminate.
Defined.








(** A point at the centroid of the only triangle gets that triangle. *)
Example closest_to_centroid :
  closest_triangle_to_point [tri_good] [mkV3 (1 # 3) (1 # 3) 0] = Ok [tri_good].
Proof. reflexivity. Qed.

(** Above the interior the distance is the plane distance: height 2,
    squared. *)
Example distance_above_interior :
  Forall2 xeq (point_dist (precompute [tri_good]) (mkV3 (1 # 4) (1 # 4) 2)) [Fin 4].
Proof. vm_compute. constructor; [reflexivity|constructor]. Qed.

(** No face, no minimum: [argmin] of an empty array raises. *)
Example closest_no_faces :
  closest_triangle_to_point [] [mkV3 0 0 0] = Raise ValueError.
Proof. reflexivity. Qed.

(** ** Curve *)

Lemma zipWith_map {A B C D : Type} (g : B -> C -> D) (h : A -> B) (k : A -> C) (l : list A) :
  zipWith g (map h l) (map k l) = map (fun a => g (h a) (k a)) l.
Proof. induction l as [|a l IH]; cbn [map zipWith]; [|rewrite IH]; reflexivity. Qed.

Lemma fill_map {A B : Type} (m : A -> bool) (g : A -> B) (v : B) (l : list A) :
  fill (map m l) (map g l) v = map (fun a => if m a then v else g a) l.
Proof. unfold fill. apply zipWith_map. Qed.

Lemma map_repeat_length {A B C : Type} (h : B -> C) (b : B) (l : list A) :
  map h (repeat b (length l)) = map (fun _ => h b) l.
Proof. induction l as [|a l IH]; cbn [length repeat map]; [|rewrite IH]; reflexivity. Qed.

Lemma evaluate_entries (c : Curve) (i0 i1 o0 o1 : Q) (xs : list Q) :
  get (inputs c) 0 = Ok i0 -> get_last (inputs c) = Ok i1 ->
  get (outputs c) 0 = Ok o0 -> get_last (outputs c) = Ok o1 ->
  evaluate c xs = Ok (map (evaluate_at (f c) i0 i1 o0 o1) xs).
Proof.
  intros Hi0 Hi1 Ho0 Ho1. unfold evaluate.
  rewrite Hi0, Hi1, Ho0, Ho1.
  destruct (f c) as [fit|]; cbn [bind].
  - rewrite map_map, !fill_map. reflexivity.
  - rewrite map_repeat_length, !fill_map. reflexivity.
Qed.

Lemma get_0_ok {A : Type} (l : list A) (a : A) : get l 0 = Ok a -> exists r, l = a :: r.
Proof.
  destruct l as [|b r]; cbn; [discriminate|].
  intro H. injection H as ->. exists r. reflexivity.
Qed.

Lemma get_ends {A : Type} (l : list A) :
  l <> [] -> exists a b, get l 0 = Ok a /\ get_last l = Ok b.
Proof.
  destruct l as [|a r]; [congruence|]. intros _.
  exists a, (last r a). split; reflexivity.
Qed.

Lemma evaluate_ok_nonempty (c : Curve) (xs ys : list Q) :
  evaluate c xs = Ok ys -> inputs c <> [] /\ outputs c <> [].
Proof.
  unfold evaluate. intro H.
  destruct (outputs c) as [|o os]; destruct (inputs c) as [|i ir].
  - destruct (f c); discriminate.
  - destruct (f c); discriminate.
  - destruct (f c); discriminate.
  - split; discriminate.
Qed.

Lemma evaluate_raises (c : Curve) (xs : list Q) (e : exn) :
  evaluate c xs = Raise e -> e = IndexError.
Proof.
  unfold evaluate. intro H.
  destruct (outputs c) as [|o os]; destruct (inputs c) as [|i ir];
    destruct (f c); cbn in H; congruence.
Qed.

Section CurveFacts.

Variable spline lin : list Q -> list Q -> option (Q -> Q).

Lemma Curve_init_ok (ins outs : list Q) (bnds : Q * Q) (kind : CurveType) (c : Curve) :
  Curve_init spline lin ins outs bnds kind = Ok c ->
  inputs c = ins /\ outputs c = outs /\ ins <> [] /\ outs <> [] /\
  ((length ins < 2)%nat -> f c = None).
Proof.
  unfold Curve_init. intro H.
  destruct (1 <? length ins)%nat eqn:L.
  - apply Nat.ltb_lt in L.
    destruct kind.
    + destruct (spline ins outs) as [fn|]; [|discriminate]. cbn [of_option bind] in H.
      destruct (evaluate _ _) as [value|e] eqn:E; [|discriminate].
      apply evaluate_ok_nonempty in E. cbn [inputs outputs] in E.
      injection H as <-. cbn [inputs outputs f]. repeat split; try tauto. lia.
    + destruct (lin ins outs) as [fn|]; [|discriminate]. cbn [of_option bind] in H.
      destruct (evaluate _ _) as [value|e] eqn:E; [|discriminate].
      apply evaluate_ok_nonempty in E. cbn [inputs outputs] in E.
      injection H as <-. cbn [inputs outputs f]. repeat split; try tauto. lia.
  - cbn [bind] in H.
    destruct (evaluate _ _) as [value|e] eqn:E; [|discriminate].
    apply evaluate_ok_nonempty in E. cbn [inputs outputs] in E.
    injection H as <-. cbn [inputs outputs f]. repeat split; tauto.
Qed.

End CurveFacts.

Lemma clip_in01 (y : Q) : in01 (clip y 0 1).
Proof.
  unfold clip, in01.
  destruct (Qle_bool y 0) eqn:A; qbool.
  - assert (Qle_bool 0 1 = true) as -> by reflexivity. lra.
  - destruct (Qle_bool y 1) eqn:B; qbool; lra.
Qed.

Lemma clip_id (y : Q) : in01 y -> clip y 0 1 == y.
Proof.
  unfold clip, in01. intros [H0 H1].
  destruct (Qle_bool y 0) eqn:A; qbool.
  - assert (Qle_bool 0 1 = true) as -> by reflexivity. lra.
  - destruct (Qle_bool y 1) eqn:B; qbool; lra.
Qed.

Lemma increasing_first_last (a : Q) (r : list Q) :
  increasing (a :: r) = true -> a <= last r a.
Proof.
  revert a. induction r as [|b r IH]; intros a H.
  - cbn. lra.
  - cbn [increasing] in H. apply andb_true_iff in H. destruct H as [Hab Hr].
    qbool. specialize (IH b Hr).
    destruct r as [|c r]; cbn [last] in *; [lra|].
    assert (E : forall d, last (c :: r) d = last (c :: r) b).
    { intro d. clear. revert c. induction r as [|x r IHr]; intro c; [reflexivity|].
      cbn [last] in *. apply IHr. }
    cbn [last] in E. rewrite (E a). lra.
Qed.

Section CurveClaims.

Variable spline lin : list Q -> list Q -> option (Q -> Q).

(** C5 (as amended): for every constructed Curve whose first and last
    output values lie in [0,1], every value returned by [evaluate] lies
    in [0,1]. *)
Theorem evaluate_range_of_end_outputs
        (ins outs : list Q) (bnds : Q * Q) (kind : CurveType) (c : Curve) :
  Curve_init spline lin ins outs bnds kind = Ok c ->
  (forall o, get (outputs c) 0 = Ok o -> in01 o) ->
  (forall o, get_last (outputs c) = Ok o -> in01 o) ->
  evaluate_in_range c.
Proof.
  intros Hc Hfirst Hlast xs ys Hys.
  destruct (Curve_init_ok spline lin _ _ _ _ _ Hc) as [Ei [Eo [Hi [Ho _]]]].
  rewrite <- Ei in Hi. rewrite <- Eo in Ho.
  destruct (get_ends _ Hi) as [i0 [i1 [Hi0 Hi1]]].
  destruct (get_ends _ Ho) as [o0 [o1 [Ho0 Ho1]]].
  rewrite (evaluate_entries c i0 i1 o0 o1 xs Hi0 Hi1 Ho0 Ho1) in Hys.
  injection Hys as <-.
  apply Forall_forall. intros y Hy. apply in_map_iff in Hy.
  destruct Hy as [x [<- _]]. unfold evaluate_at.
  destruct (Qltb i1 x); [apply Hlast; exact Ho1|].
  destruct (Qltb x i0); [apply Hfirst; exact Ho0|].
  apply clip_in01.
Qed.

(** C6: for every constructed Curve (at least one input point, inputs in
    increasing order): wherever [x < inputs[0]] the value returned by
    [evaluate] is [outputs[0]], and wherever [x > inputs[-1]] it is
    [outputs[-1]], whatever the interpolant. *)
Theorem evaluate_flat_extrapolation
        (ins outs : list Q) (bnds : Q * Q) (kind : CurveType) (c : Curve) :
  Curve_init spline lin ins outs bnds kind = Ok c ->
  increasing ins = true ->
  exists i0 i1 o0 o1,
    get (inputs c) 0 = Ok i0 /\ get_last (inputs c) = Ok i1 /\
    get (outputs c) 0 = Ok o0 /\ get_last (outputs c) = Ok o1 /\
    forall xs, exists ys,
      evaluate c xs = Ok ys /\
      Forall2 (fun x y => (x < i0 -> y = o0) /\ (i1 < x -> y = o1)) xs ys.
Proof.
  intros Hc Hinc.
  destruct (Curve_init_ok spline lin _ _ _ _ _ Hc) as [Ei [Eo [Hi [Ho _]]]].
  rewrite <- Ei in Hi, Hinc. rewrite <- Eo in Ho.
  destruct (get_ends _ Hi) as [i0 [i1 [Hi0 Hi1]]].
  destruct (get_ends _ Ho) as [o0 [o1 [Ho0 Ho1]]].
  exists i0, i1, o0, o1. repeat (split; [assumption|]).
  intro xs. exists (map (evaluate_at (f c) i0 i1 o0 o1) xs).
  split; [apply evaluate_entries; assumption|].
  assert (Hle : i0 <= i1).
  { destruct (inputs c) as [|a r]; [congruence|].
    cbn in Hi0, Hi1. injection Hi0 as <-. injection Hi1 as <-.
    apply increasing_first_last. exact Hinc. }
  induction xs as [|x xs IH]; cbn [map]; constructor; [|exact IH].
  unfold evaluate_at. split; intro Hx.
  - destruct (Qltb i1 x) eqn:A; qbool; [lra|].
    destruct (Qltb x i0) eqn:B; qbool; [reflexivity|lra].
  - destruct (Qltb i1 x) eqn:A; qbool; [reflexivity|lra].
Qed.

(** C7 (as amended): for every Curve constructed with fewer than 2 input
    points there is exactly one input point [i0] and no fitting model is
    built; [evaluate] returns the first output verbatim for [x < i0], the
    last output verbatim for [x > i0], and the first output clamped to
    [0,1] at [i0] itself.  When there is one output value and it lies in
    [0,1], every value returned is that of the first output. *)
Theorem evaluate_single_point
        (ins outs : list Q) (bnds : Q * Q) (kind : CurveType) (c : Curve) :
  Curve_init spline lin ins outs bnds kind = Ok c ->
  (length ins < 2)%nat ->
  f c = None /\
  exists i0 o0 o1,
    inputs c = [i0] /\ get (outputs c) 0 = Ok o0 /\ get_last (outputs c) = Ok o1 /\
    (forall xs, evaluate c xs =
                Ok (map (fun x => if Qltb i0 x then o1
                                  else if Qltb x i0 then o0
                                  else clip o0 0 1) xs)) /\
    (length outs = 1%nat -> in01 o0 ->
     forall xs, exists ys, evaluate c xs = Ok ys /\ Forall (fun y => y == o0) ys).
Proof.
  intros Hc Hlen.
  destruct (Curve_init_ok spline lin _ _ _ _ _ Hc) as [Ei [Eo [Hi [Ho Hf]]]].
  specialize (Hf Hlen). split; [exact Hf|].
  destruct ins as [|i0 [|i ins]]; [congruence| |cbn in Hlen; lia].
  destruct outs as [|o0 outs]; [congruence|].
  exists i0, o0, (last outs o0).
  assert (Hev : forall xs, evaluate c xs =
                Ok (map (fun x => if Qltb i0 x then last outs o0
                                  else if Qltb x i0 then o0
                                  else clip o0 0 1) xs)).
  { intro xs.
    rewrite (evaluate_entries c i0 i0 o0 (last outs o0) xs);
      try (rewrite ?Ei, ?Eo; reflexivity).
    rewrite Hf. reflexivity. }
  rewrite Ei, Eo. repeat split; try reflexivity; [exact Hev|].
  intros Hone H01 xs. eexists. split; [apply Hev|].
  destruct outs as [|o outs]; [|discriminate]. cbn [last].
  apply Forall_forall. intros y Hy. apply in_map_iff in Hy.
  destruct Hy as [x [<- _]].
  destruct (Qltb i0 x); [reflexivity|].
  destruct (Qltb x i0); [reflexivity|].
  apply clip_id. exact H01.
Qed.

Lemma init_never_invalid_definition
        (ins outs : list Q) (bnds : Q * Q) (kind : CurveType) :
  Curve_init spline lin ins outs bnds kind <> Raise InvalidCurveDefinition /\
  (length ins = 1%nat -> outs <> [] ->
   exists c, Curve_init spline lin ins outs bnds kind = Ok c /\
             inputs c = ins /\ outputs c = outs).
Proof.
  split.
  - unfold Curve_init.
    destruct (1 <? length ins)%nat.
    + destruct kind.
      * destruct (spline ins outs); cbn [of_option bind]; [|discriminate].
        destruct (evaluate _ _) as [v|e] eqn:E; cbn [bind]; [discriminate|].
        apply evaluate_raises in E. subst e. discriminate.
      * destruct (lin ins outs); cbn [of_option bind]; [|discriminate].
        destruct (evaluate _ _) as [v|e] eqn:E; cbn [bind]; [discriminate|].
        apply evaluate_raises in E. subst e. discriminate.
    + cbn [bind].
      destruct (evaluate _ _) as [v|e] eqn:E; cbn [bind]; [discriminate|].
      apply evaluate_raises in E. subst e. discriminate.
  - intros Hlen Hne.
    destruct ins as [|i0 [|i ins]]; try discriminate.
    destruct outs as [|o0 outs]; [congruence|].
    unfold Curve_init. cbn [length Nat.ltb Nat.leb bind].
    rewrite (evaluate_entries _ i0 i0 o0 (last outs o0)); try reflexivity.
    cbn [bind]. eexists. split; [reflexivity|]. split; reflexivity.
Qed.

(** C8 (as amended): Curve construction compares no lengths and never
    fails with InvalidCurveDefinition; with exactly one input point and at
    least one output value it succeeds and returns a curve, whatever the
    number of outputs. *)
Theorem construction_never_invalid_definition
        (ins outs : list Q) (bnds : Q * Q) (kind : CurveType) :
  Curve_init spline lin ins outs bnds kind <> Raise InvalidCurveDefinition /\
  (length ins = 1%nat -> outs <> [] ->
   exists c, Curve_init spline lin ins outs bnds kind = Ok c /\
             inputs c = ins /\ outputs c = outs).
Proof. apply init_never_invalid_definition. Qed.

End CurveClaims.

Lemma evaluate_range_of_end_outputs_witness :
  exists c, Curve_init line_fit line_fit [0; 255] [0; 1] (0, 255) Cubic = Ok c /\
            evaluate_in_range c.
Proof.
  destruct (Curve_init line_fit line_fit [0; 255] [0; 1] (0, 255) Cubic) as [c|e] eqn:E;
    [|vm_compute in E; discriminate].
  exists c. split; [reflexivity|].
  destruct (Curve_init_ok _ _ _ _ _ _ _ E) as [_ [Eo _]].
  apply (evaluate_range_of_end_outputs line_fit line_fit [0; 255] [0; 1] (0, 255) Cubic c E).
  - rewrite Eo. intros o H. injection H as <-. split; [apply Qle_refl|discriminate].
  - rewrite Eo. intros o H. injection H as <-. split; [discriminate|apply Qle_refl].
Defined.

(** A curve with one point and the output value 2: below the input point
    the value 2 comes back as it is. *)
Lemma evaluate_in_range_fails_outside_inputs :
  exists c, Curve_init no_fit no_fit [0] [2] (0, 1) Cubic = Ok c /\
            evaluate c [- (1)] = Ok [2] /\
            ~ evaluate_in_range c.
Proof.
  destruct (Curve_init no_fit no_fit [0] [2] (0, 1) Cubic) as [c|e] eqn:E;
    [|vm_compute in E; discriminate].
  exists c.
  destruct (Curve_init_ok _ _ _ _ _ _ _ E) as [Ei [Eo _]].
  assert (Hev : evaluate c [- (1)] = Ok [2]).
  { rewrite (evaluate_entries c 0 0 2 2); rewrite ?Ei, ?Eo; reflexivity. }
  split; [reflexivity|]. split; [exact Hev|].
  intro H. specialize (H _ _ Hev).
  inversion H as [|y l [_ Hle] _]; subst.
  vm_compute in Hle. apply Hle. reflexivity.
Qed.

Lemma evaluate_flat_extrapolation_witness :
  exists c i0 i1 o0 o1,
    Curve_init line_fit line_fit [0; 255] [0; 1] (0, 255) Linear = Ok c /\
    get (inputs c) 0 = Ok i0 /\ get_last (inputs c) = Ok i1 /\
    get (outputs c) 0 = Ok o0 /\ get_last (outputs c) = Ok o1 /\
    forall xs, exists ys,
      evaluate c xs = Ok ys /\
      Forall2 (fun x y => (x < i0 -> y = o0) /\ (i1 < x -> y = o1)) xs ys.
Proof.
  destruct (Curve_init line_fit line_fit [0; 255] [0; 1] (0, 255) Linear) as [c|e] eqn:E;
    [|vm_compute in E; discriminate].
  exists c.
  destruct (evaluate_flat_extrapolation line_fit line_fit [0; 255] [0; 1] (0, 255) Linear c E)
    as [i0 [i1 [o0 [o1 H]]]]; [reflexivity|].
  exists i0, i1, o0, o1. split; [reflexivity|exact H].
Defined.

Lemma evaluate_single_point_witness :
  exists c, Curve_init no_fit no_fit [10] [1 # 2] (0, 255) Linear = Ok c /\
            f c = None /\
            forall xs, exists ys, evaluate c xs = Ok ys /\ Forall (fun y => y == 1 # 2) ys.
Proof.
  destruct (Curve_init no_fit no_fit [10] [1 # 2] (0, 255) Linear) as [c|e] eqn:E;
    [|vm_compute in E; discriminate].
  exists c. split; [reflexivity|].
  destruct (evaluate_single_point no_fit no_fit [10] [1 # 2] (0, 255) Linear c E)
    as [Hf [i0 [o0 [o1 [_ [Ho0 [_ [_ Hconst]]]]]]]]; [cbn; lia|].
  split; [exact Hf|].
  destruct (Curve_init_ok _ _ _ _ _ _ _ E) as [_ [Eo _]].
  rewrite Eo in Ho0. injection Ho0 as <-.
  apply Hconst; [reflexivity|].
  split; discriminate.
Defined.

(** A curve with one point and the output value 3: away from the input
    point the value 3 comes back, not its clamp 1. *)
Lemma evaluate_constant_fails_unclamped :
  exists c, Curve_init no_fit no_fit [10] [3] (0, 255) Linear = Ok c /\
            evaluate c [0] = Ok [3] /\
            ~ evaluate_constant c.
Proof.
  destruct (Curve_init no_fit no_fit [10] [3] (0, 255) Linear) as [c|e] eqn:E;
    [|vm_compute in E; discriminate].
  exists c.
  destruct (Curve_init_ok _ _ _ _ _ _ _ E) as [Ei [Eo _]].
  assert (Hev : evaluate c [0] = Ok [3]).
  { rewrite (evaluate_entries c 10 10 3 3); rewrite ?Ei, ?Eo; reflexivity. }
  split; [reflexivity|]. split; [exact Hev|].
  intros [_ H]. destruct (H _ _ Hev) as [o0 [Ho0 Hall]].
  rewrite Eo in Ho0. injection Ho0 as <-.
  inversion Hall as [|y l Hy _]; subst.
  vm_compute in Hy. discriminate.
Qed.

Lemma construction_never_invalid_definition_witness :
  exists c, Curve_init no_fit no_fit [0] [1 # 2; 3 # 4] (0, 1) Cubic = Ok c /\
            inputs c = [0] /\ outputs c = [1 # 2; 3 # 4].
Proof.
  apply (proj2 (construction_never_invalid_definition no_fit no_fit
                  [0] [1 # 2; 3 # 4] (0, 1) Cubic)).
  - reflexivity.
  - discriminate.
Defined.

(** One input point and two output values: the lengths differ and the
    constructor returns a curve. *)
Lemma construction_accepts_length_mismatch :
  ~ construction_checks_lengths no_fit no_fit [0] [1 # 2; 3 # 4] (0, 1) Cubic.
Proof.
  intros [_ H].
  assert (Hlen : length [0] <> length [1 # 2; 3 # 4]) by (cbn; lia).
  specialize (H Hlen).
  destruct (proj2 (init_never_invalid_definition no_fit no_fit
                     [0] [1 # 2; 3 # 4] (0, 1) Cubic) eq_refl) as [c [Hc _]];
    [discriminate|].
  rewrite Hc in H. discriminate.
Qed.

(** ** Volume: the bounding box *)

Lemma v4eq_refl (p : V4) : v4eq p p.
Proof. unfold v4eq. repeat split; reflexivity. Qed.

Lemma v4eq_trans (p q r : V4) : v4eq p q -> v4eq q r -> v4eq p r.
Proof.
  unfold v4eq. intros [A1 [A2 [A3 A4]]] [B1 [B2 [B3 B4]]].
  repeat split; etransitivity; eassumption.
Qed.

Lemma mulv_matmul (b a : Matrix44) (p : V4) :
  v4eq (mulv (matmul b a) p) (mulv b (mulv a p)).
Proof.
  unfold v4eq, mulv, matmul, row_times, dot4. cbn [x4 y4 z4 w4 r0 r1 r2 r3].
  repeat split; ring.
Qed.

Lemma mulv_compat (m : Matrix44) (p q : V4) : v4eq p q -> v4eq (mulv m p) (mulv m q).
Proof.
  unfold v4eq, mulv, dot4. cbn [x4 y4 z4 w4]. intros [E1 [E2 [E3 E4]]].
  repeat split; rewrite E1, E2, E3, E4; reflexivity.
Qed.

Lemma box_eq_refl (b : BoundingBox) : box_eq b b.
Proof.
  unfold box_eq. induction (corners b) as [|p l IH]; constructor;
    [apply v4eq_refl|exact IH].
Qed.

Lemma corners_eq_trans (l1 l2 l3 : list V4) :
  Forall2 v4eq l1 l2 -> Forall2 v4eq l2 l3 -> Forall2 v4eq l1 l3.
Proof.
  intro H. revert l3.
  induction H as [|p q l l' Hpq _ IH]; intros l3 H3; inversion H3; subst.
  - constructor.
  - constructor; [eapply v4eq_trans; eassumption|].
    apply IH. assumption.
Qed.

Lemma box_eq_trans (a b c : BoundingBox) : box_eq a b -> box_eq b c -> box_eq a c.
Proof. unfold box_eq. apply corners_eq_trans. Qed.

Lemma transform_compose (box : BoundingBox) (a b : Matrix44) :
  box_eq (BoundingBox_transform (BoundingBox_transform box a) b)
         (BoundingBox_transform box (matmul b a)).
Proof.
  unfold box_eq, BoundingBox_transform. cbn [corners]. rewrite map_map.
  induction (corners box) as [|p l IH]; cbn [map]; constructor; [|exact IH].
  unfold v4eq. destruct (mulv_matmul b a p) as [E1 [E2 [E3 E4]]].
  repeat split; symmetry; assumption.
Qed.

Lemma transform_compat (box box' : BoundingBox) (m : Matrix44) :
  box_eq box box' -> box_eq (BoundingBox_transform box m) (BoundingBox_transform box' m).
Proof.
  unfold box_eq, BoundingBox_transform. cbn [corners].
  induction 1 as [|p q l l' Hpq _ IH]; cbn [map]; constructor;
    [apply mulv_compat; exact Hpq|exact IH].
Qed.

Lemma mutate_transform (self : Volume) (call : mutator) :
  mutate self call = Volume_transform self (matrix_of call).
Proof. destruct call; reflexivity. Qed.

Lemma box_placed_mutate (self : Volume) (call : mutator) :
  box_placed self -> box_placed (mutate self call).
Proof.
  unfold box_placed. intro H. rewrite mutate_transform.
  unfold Volume_transform, local_box, Volume_extent, Volume_shape.
  cbn [bounding_box transform_matrix data voxel_size].
  eapply box_eq_trans; [apply transform_compat; exact H|].
  apply transform_compose.
Qed.

Lemma mutate_all (calls : list mutator) :
  forall self : Volume,
  box_placed self ->
  let moved := fold_left mutate calls self in
  transform_matrix moved =
    fold_left (fun t call => matmul (matrix_of call) t) calls (transform_matrix self) /\
  box_placed moved /\
  data moved = data self /\ voxel_size moved = voxel_size self /\
  render_target moved = render_target self.
Proof.
  induction calls as [|call calls IH]; intros self H; cbn [fold_left].
  - repeat split; try reflexivity. exact H.
  - destruct (IH (mutate self call) (box_placed_mutate self call H))
      as [Ht [Hb [Hd [Hv Hr]]]].
    rewrite mutate_transform in Ht, Hd, Hv, Hr, Hb.
    cbn [Volume_transform transform_matrix data voxel_size render_target] in Ht, Hd, Hv, Hr.
    rewrite mutate_transform.
    repeat split; assumption.
Qed.

Section VolumeClaims.

Variable spline lin : list Q -> list Q -> option (Q -> Q).
Variable histogram1d : ndarray -> list Q.
Variable zoom : ndarray -> Q -> list Z -> list Z -> Z.

Lemma Volume_init_ok (grid : ndarray) (size centre : V3) (max_bytes : Q) (max_dim : Z)
    (v : Volume) :
Volume_init spline lin histogram1d zoom grid size centre max_bytes max_dim = Ok v ->
data v = grid /\ voxel_size v = size /\
transform_matrix v = Matrix44_fromTranslation centre /\
bounding_box v = BoundingBox_transform (local_box v) (Matrix44_fromTranslation centre).
Proof.
unfold Volume_init. cbn [snd]. intro H.
destruct (get (linspace 0 255 257) 0) as [i0|e]; [|discriminate].
cbn [bind] in H.
destruct (get_last (linspace 0 255 257)) as [i1|e]; [|discriminate].
cbn [bind] in H.
destruct (Curve_init _ _ _ _ _ _) as [c|e]; [|discriminate].
cbn [bind] in H.
destruct (if Qltb _ _ then _ else _) as [t|e]; [|discriminate].
cbn [bind] in H. injection H as <-.
repeat split.
Qed.

Lemma matrix_of_placement (call : mutator) : matrix_of call = placement call.
Proof. destruct call; reflexivity. Qed.

Lemma compose_placements (calls : list mutator) :
forall t : Matrix44,
fold_left (fun t call => matmul (matrix_of call) t) calls t =
fold_left (fun t call => matmul (placement call) t) calls t.
Proof.
induction calls as [|call calls IH]; intro t; cbn [fold_left]; [reflexivity|].
rewrite matrix_of_placement. apply IH.
Qed.

Lemma local_corners (size : V3) (s1 s2 s3 : Z) :
Forall2 v4eq
  (corners (BoundingBox_new (vscale (1 # 2) (times_shape size [s1; s2; s3]))
                            (vscale (- (1 # 2)) (times_shape size [s1; s2; s3]))))
  (centred_corners (half_extent size s1 s2 s3)).
Proof.
unfold BoundingBox_new, centred_corners, half_extent, times_shape, vscale.
cbn [corners list_prod map app fst snd vx vy vz nth].
repeat constructor; cbn [x4 y4 z4 w4]; try reflexivity; field.
Qed.

Lemma map_through_compat (m : Matrix44) (l l' : list V4) :
Forall2 v4eq l l' -> Forall2 v4eq (map (mulv m) l) (map (through m) l').
Proof.
induction 1 as [|p q l l' Hpq _ IH]; cbn [map]; constructor; [|exact IH].
change (through m q) with (mulv m q). apply mulv_compat. exact Hpq.
Qed.

(** C4: for every constructed Volume on a grid of shape (s1, s2, s3) and
  every finite sequence of rotate/translate/transform calls: the transform
  matrix is the product of the matrices of the calls, each composed on the
  left of the matrix before it, starting from the translation by the
  centre; the corners of the bounding box are the eight corners
  (+-h1, +-h2, +-h3) of the box of half-extents
  [h = voxel_size * shape / 2] around the origin, each passed through that
  matrix; and the grid is unchanged. *)
Theorem bounding_box_follows_transform
      (grid : ndarray) (size centre : V3) (max_bytes : Q) (max_dim : Z)
      (v : Volume) (calls : list mutator) (s1 s2 s3 : Z) :
shape grid = [s1; s2; s3] ->
Volume_init spline lin histogram1d zoom grid size centre max_bytes max_dim = Ok v ->
let moved := fold_left mutate calls v in
let placed := fold_left (fun t call => matmul (placement call) t) calls
                        (placement (Translate centre)) in
transform_matrix moved = placed /\
Forall2 v4eq (corners (bounding_box moved))
             (map (through placed) (centred_corners (half_extent size s1 s2 s3))) /\
data moved = grid.
Proof.
intros Hshape Hv. destruct (Volume_init_ok _ _ _ _ _ _ Hv) as [Hd [Hs [Ht Hb]]].
assert (Hp : box_placed v).
{ unfold box_placed. rewrite Hb, Ht. apply box_eq_refl. }
destruct (mutate_all calls v Hp) as [Ht' [Hb' [Hd' [Hs' _]]]].
cbv zeta.
assert (Hm : transform_matrix (fold_left mutate calls v) =
             fold_left (fun t call => matmul (placement call) t) calls
                       (placement (Translate centre))).
{ rewrite Ht', Ht, compose_placements. reflexivity. }
split; [exact Hm|]. split.
- unfold box_placed, local_box, Volume_extent, Volume_shape in Hb'.
  rewrite Hd', Hs', Hd, Hs, Hshape, Hm in Hb'.
  unfold box_eq, BoundingBox_transform in Hb'. cbn [corners] in Hb'.
  eapply corners_eq_trans; [exact Hb'|].
  apply map_through_compat, local_corners.
- rewrite Hd', Hd. reflexivity.
Qed.

End VolumeClaims.

Lemma bounding_box_follows_transform_witness :
  exists v,
    Volume_init line_fit line_fit no_histogram no_zoom (blank [4; 2; 2]%Z)
                (mkV3 1 1 1) (mkV3 10 0 0) 2000000000 1024 = Ok v /\
    let moved := fold_left mutate example_calls v in
    transform_matrix moved =
      mkMatrix44 (mkV4 0 (- (1)) 0 (- (1))) (mkV4 1 0 0 10) (mkV4 0 0 1 5) (mkV4 0 0 0 1) /\
    Forall2 v4eq (corners (bounding_box moved))
            [mkV4 0 8 4 1; mkV4 0 8 6 1; mkV4 (- (2)) 8 4 1; mkV4 (- (2)) 8 6 1;
             mkV4 0 12 4 1; mkV4 0 12 6 1; mkV4 (- (2)) 12 4 1; mkV4 (- (2)) 12 6 1] /\
    data moved = blank [4; 2; 2]%Z.
Proof.
  destruct (Volume_init line_fit line_fit no_histogram no_zoom (blank [4; 2; 2]%Z)
                        (mkV3 1 1 1) (mkV3 10 0 0) 2000000000 1024) as [v|e] eqn:E;
    [|vm_compute in E; discriminate].
  exists v. split; [reflexivity|].
  destruct (bounding_box_follows_transform line_fit line_fit no_histogram no_zoom
              (blank [4; 2; 2]%Z) (mkV3 1 1 1) (mkV3 10 0 0) 2000000000 1024 v
              example_calls 4 2 2 eq_refl E) as [Hm [Hc Hd]].
  cbv zeta. split; [|split; [|exact Hd]].
  - rewrite Hm. vm_compute. reflexivity.
  - eapply corners_eq_trans; [exact Hc|].
    vm_compute. repeat constructor.
Defined.

(** ** Volume: bin *)

Lemma round_floor_bounds (x : Q) :
  (Qfloor x <= round_half_even x <= Qfloor x + 1)%Z.
Proof.
  unfold round_half_even.
  destruct (Qltb _ (1 # 2)); [lia|].
  destruct (Qltb (1 # 2) _); [lia|].
  destruct (Z.even _); lia.
Qed.

Lemma round_integer (n : Z) (x : Q) : x == inject_Z n -> round_half_even x = n.
Proof.
  intro E. unfold round_half_even.
  assert (F : Qfloor x = n) by (rewrite E; apply Qfloor_Z).
  rewrite F.
  assert (L : Qltb (x - inject_Z n) (1 # 2) = true) by (apply Qltb_lt; lra).
  rewrite L. reflexivity.
Qed.




Lemma fold_left_max (r : list Z) :
  forall a : Z,
  let m := fold_left Z.max r a in
  (a <= m)%Z /\ Forall (fun d => (d <= m)%Z) r /\ (m = a \/ In m r).
Proof.
  induction r as [|b r IH]; intro a; cbn [fold_left].
  - repeat split; [lia|constructor|left; reflexivity].
  - destruct (IH (Z.max a b)) as [H1 [H2 H3]]. cbv zeta in *.
    repeat split.
    + lia.
    + constructor; [lia|exact H2].
    + destruct H3 as [H3|H3].
      * destruct (Z.max_spec a b) as [[_ E]|[_ E]].
        -- right. left. rewrite H3. symmetry. exact E.
        -- left. rewrite H3. exact E.
      * right. right. exact H3.
Qed.

Lemma np_max_ok (l : list Z) :
  l <> [] ->
  exists m, np_max l = Ok m /\ In m l /\ Forall (fun d => (d <= m)%Z) l.
Proof.
  destruct l as [|a r]; [congruence|]. intros _.
  destruct (fold_left_max r a) as [H1 [H2 H3]]. cbv zeta in *.
  exists (fold_left Z.max r a). cbn [np_max]. repeat split.
  - destruct H3 as [H3|H3]; [left; symmetry; exact H3|right; exact H3].
  - constructor; assumption.
Qed.



Section BinClaims.

Variable zoom : ndarray -> Q -> list Z -> list Z -> Z.


End BinClaims.



(* ================================================================= *)
(** * Further properties of the code *)

(** ** segment_plane_intersection: the point returned *)



(** ** segment_plane_intersection: the order of the end points *)



(** ** mesh_plane_intersection: what the segment list holds *)

Lemma mesh_segments (verts : list V3) (tris : list (nat * nat * nat)) (plane : Plane) :
  mesh_plane_intersection (mkMesh verts (flat_indices tris)) plane =
  (faces <- mapM (lookup_face verts) tris ;;
   Ok (flat_map (face_segment plane) faces)).
Proof.
  unfold mesh_plane_intersection. cbn [vertices indices].
  rewrite fancy_index_flat.
  destruct (mapM (lookup_face verts) tris) as [faces|e]; [|reflexivity].
  cbn [bind]. rewrite candidate_indices.
  destruct (length _ =? 0)%nat eqn:E.
  - apply Nat.eqb_eq in E. apply length_zero_iff_nil in E.
    rewrite <- (mesh_faces_loop plane faces). rewrite E. reflexivity.
  - apply mesh_faces_loop.
Qed.

Lemma mapM_length {A B : Type} (g : A -> result B) (l : list A) (bs : list B) :
  mapM g l = Ok bs -> length bs = length l.
Proof.
  revert bs. induction l as [|a l IH]; intros bs H; cbn [mapM] in H.
  - injection H as <-. reflexivity.
  - destruct (g a) as [b|e]; [|discriminate]. cbn [bind] in H.
    destruct (mapM g l) as [bs'|e]; [|discriminate]. cbn [bind] in H.
    injection H as <-. cbn [length]. rewrite (IH bs' eq_refl). reflexivity.
Qed.

Lemma mapM_app {A B : Type} (g : A -> result B) (l1 l2 : list A) :
  mapM g (l1 ++ l2) = (r1 <- mapM g l1 ;; r2 <- mapM g l2 ;; Ok (r1 ++ r2)).
Proof.
  induction l1 as [|a l1 IH]; cbn [app mapM bind].
  - destruct (mapM g l2); reflexivity.
  - destruct (g a) as [b|e]; [|reflexivity]. cbn [bind]. rewrite IH.
    destruct (mapM g l1) as [r1|e]; [|reflexivity]. cbn [bind].
    destruct (mapM g l2) as [r2|e]; reflexivity.
Qed.





Lemma face_segment_length (plane : Plane) (f : Face3) :
  length (face_segment plane f) = 0%nat \/ length (face_segment plane f) = 2%nat.
Proof.
  destruct f as [[v0 v1] v2]. unfold face_segment, vertex_and_crossing.
  destruct (_ || _); [left; reflexivity|].
  destruct (negb (Qeq_bool (signed_dist plane v0) 0)),
           (negb (Qeq_bool (signed_dist plane v1) 0)),
           (negb (Qeq_bool (signed_dist plane v2) 0));
    try (left; reflexivity); try (right; reflexivity);
    try (match goal with
         | |- context [segment_plane_intersection ?a ?b plane] =>
             destruct (segment_plane_intersection a b plane);
             [right; reflexivity|left; reflexivity]
         end).
  destruct (crossings plane _) as [|p [|q r]];
    [left; reflexivity|left; reflexivity|right; reflexivity].
Qed.



(** The segment list holds whole pairs, at most one pair per face. *)
Theorem mesh_section_pairs
        (verts : list V3) (tris : list (nat * nat * nat)) (plane : Plane)
        (segments : list V3) :
  mesh_plane_intersection (mkMesh verts (flat_indices tris)) plane = Ok segments ->
  exists pairs : nat,
    length segments = (2 * pairs)%nat /\ (pairs <= length tris)%nat.
Proof.
  rewrite mesh_segments.
  destruct (mapM (lookup_face verts) tris) as [faces|e] eqn:M; [|discriminate].
  cbn [bind]. intro H. injection H as <-.
  rewrite <- (mapM_length _ _ _ M). clear M.
  induction faces as [|f faces IH]; cbn [flat_map length].
  - exists 0%nat. split; [reflexivity|lia].
  - destruct IH as [k [Hk Hle]]. rewrite length_app, Hk.
    destruct (face_segment_length plane f) as [L|L]; rewrite L.
    + exists k. split; lia.
    + exists (S k). split; lia.
Qed.

Lemma mesh_section_pairs_witness :
  exists segments pairs,
    mesh_plane_intersection unit_mesh c3_plane = Ok segments /\
    length segments = (2 * pairs)%nat /\ (pairs <= 1)%nat.
Proof.
  destruct (mesh_plane_intersection unit_mesh c3_plane) as [segments|e] eqn:E;
    [|vm_compute in E; discriminate].
  destruct (mesh_section_pairs [mkV3 0 0 (-1); mkV3 1 0 1; mkV3 0 1 1]
                               [(0, 1, 2)%nat] c3_plane segments E) as [pairs H].
  exists segments, pairs. split; [reflexivity|exact H].
Defined.

(** ** mesh_plane_intersection: edge cases and composition *)

Lemma get_in {A : Type} (l : list A) (i : nat) (a : A) : get l i = Ok a -> In a l.
Proof.
  unfold get. destruct (nth_error l i) as [b|] eqn:E; [|discriminate].
  intro H. injection H as <-. eapply nth_error_In. exact E.
Qed.

Lemma lookup_face_in (verts : list V3) (t : nat * nat * nat) (f : Face3) :
  lookup_face verts t = Ok f -> Forall (fun v => In v verts) (face_list f).
Proof.
  unfold lookup_face.
  destruct (get verts (fst (fst t))) as [a|e] eqn:Ea; [|discriminate].
  destruct (get verts (snd (fst t))) as [b|e] eqn:Eb; [|discriminate].
  destruct (get verts (snd t)) as [c|e] eqn:Ec; [|discriminate].
  cbn [bind]. intro H. injection H as <-. cbn [face_list fst snd].
  repeat constructor; eapply get_in; eassumption.
Qed.

Lemma one_side_not_candidate (plane : Plane) (f : Face3) :
  Forall (fun v => 0 < signed_dist plane v) (face_list f) \/
  Forall (fun v => signed_dist plane v < 0) (face_list f) ->
  candidate plane f = false.
Proof.
  destruct f as [[v0 v1] v2]. unfold candidate. cbn [face_list fst snd map forallb].
  intros [H|H];
    inversion H as [|? ? Ha H']; inversion H' as [|? ? Hb H'']; inversion H'' as [|? ? Hc _];
    subst; apply Qltb_lt in Ha, Hb, Hc; rewrite Ha, Hb, Hc; cbn.
  - apply andb_false_r.
  - reflexivity.
Qed.

(** A mesh whose vertices are all strictly on one side of the plane gives
    the empty segment list. *)
Theorem mesh_on_one_side
        (verts : list V3) (tris : list (nat * nat * nat)) (plane : Plane)
        (segments : list V3) :
  Forall (fun v => 0 < signed_dist plane v) verts \/
  Forall (fun v => signed_dist plane v < 0) verts ->
  mesh_plane_intersection (mkMesh verts (flat_indices tris)) plane = Ok segments ->
  segments = [].
Proof.
  intro Hside. rewrite mesh_segments.
  destruct (mapM (lookup_face verts) tris) as [faces|e] eqn:M; [|discriminate].
  cbn [bind]. intro H. injection H as <-.
  revert faces M. induction tris as [|t tris IH]; intros faces M; cbn [mapM] in M.
  - injection M as <-. reflexivity.
  - destruct (lookup_face verts t) as [f|e] eqn:L; [|discriminate]. cbn [bind] in M.
    destruct (mapM (lookup_face verts) tris) as [faces'|e]; [|discriminate].
    cbn [bind] in M. injection M as <-. cbn [flat_map].
    rewrite (IH faces' eq_refl), app_nil_r.
    apply face_segment_not_candidate, one_side_not_candidate.
    apply lookup_face_in in L. rewrite Forall_forall in L.
    destruct Hside as [Hs|Hs]; [left|right]; rewrite Forall_forall in Hs;
      apply Forall_forall; intros v Hv; apply Hs, L, Hv.
Qed.

Lemma mesh_on_one_side_witness :
  mesh_plane_intersection
    (mkMesh [mkV3 0 0 1; mkV3 1 0 2; mkV3 0 1 3] (flat_indices [(0, 1, 2); (2, 1, 0)]%nat))
    c3_plane = Ok [].
Proof.
  destruct (mesh_plane_intersection
              (mkMesh [mkV3 0 0 1; mkV3 1 0 2; mkV3 0 1 3]
                      (flat_indices [(0, 1, 2); (2, 1, 0)]%nat)) c3_plane)
    as [segments|e] eqn:E; [|vm_compute in E; discriminate].
  f_equal.
  apply (mesh_on_one_side [mkV3 0 0 1; mkV3 1 0 2; mkV3 0 1 3]
                          [(0, 1, 2); (2, 1, 0)]%nat c3_plane segments);
    [|exact E].
  left. repeat constructor.
Defined.

Lemma get_ok {A : Type} (l : list A) (i : nat) :
  (i < length l)%nat -> exists a, get l i = Ok a.
Proof.
  intro H. unfold get. destruct (nth_error l i) as [a|] eqn:E.
  - exists a. reflexivity.
  - apply nth_error_None in E. lia.
Qed.

Lemma get_raise {A : Type} (l : list A) (i : nat) :
  (length l <= i)%nat -> get l i = Raise IndexError.
Proof.
  intro H. unfold get. apply nth_error_None in H. rewrite H. reflexivity.
Qed.

Lemma fancy_index_ok {A : Type} (arr : list A) (idx : list nat) :
  Forall (fun i => (i < length arr)%nat) idx -> exists r, fancy_index arr idx = Ok r.
Proof.
  unfold fancy_index. induction 1 as [|i idx Hi _ [r IH]]; cbn [mapM].
  - exists []. reflexivity.
  - destruct (get_ok arr i Hi) as [a Ha]. rewrite Ha, IH. cbn [bind].
    eexists. reflexivity.
Qed.

Lemma fancy_index_raise {A : Type} (arr : list A) (idx : list nat) :
  Exists (fun i => (length arr <= i)%nat) idx -> fancy_index arr idx = Raise IndexError.
Proof.
  unfold fancy_index. induction 1 as [i idx Hi|i idx _ IH]; cbn [mapM].
  - rewrite (get_raise arr i Hi). reflexivity.
  - destruct (get arr i) as [a|e] eqn:E; cbn [bind].
    + rewrite IH. reflexivity.
    + unfold get in E. destruct (nth_error arr i); [discriminate|].
      injection E as <-. reflexivity.
Qed.

(** [mesh_plane_intersection] returns a segment list when every index of
    the buffer is inside the vertex buffer, and raises [IndexError] when one
    is not. *)
Theorem mesh_index_error
        (verts : list V3) (tris : list (nat * nat * nat)) (plane : Plane) :
  (Forall (fun i => (i < length verts)%nat) (flat_indices tris) ->
   exists segments,
     mesh_plane_intersection (mkMesh verts (flat_indices tris)) plane = Ok segments) /\
  (Exists (fun i => (length verts <= i)%nat) (flat_indices tris) ->
   mesh_plane_intersection (mkMesh verts (flat_indices tris)) plane = Raise IndexError).
Proof.
  split; intro H.
  - destruct (fancy_index_ok verts _ H) as [r Hr].
    pose proof (mesh_segments verts tris plane) as E.
    rewrite fancy_index_flat in Hr.
    destruct (mapM (lookup_face verts) tris) as [faces|e]; [|discriminate].
    rewrite E. eexists. reflexivity.
  - unfold mesh_plane_intersection. cbn [vertices indices].
    rewrite (fancy_index_raise verts _ H). reflexivity.
Qed.

Lemma mesh_index_error_witness :
  (exists segments,
     mesh_plane_intersection
       (mkMesh [mkV3 0 0 (-1); mkV3 1 0 1; mkV3 0 1 1] (flat_indices [(0, 1, 2)%nat]))
       c3_plane = Ok segments) /\
  mesh_plane_intersection
    (mkMesh [mkV3 0 0 (-1); mkV3 1 0 1] (flat_indices [(0, 1, 2)%nat])) c3_plane
  = Raise IndexError.
Proof.
  split.
  - apply (proj1 (mesh_index_error [mkV3 0 0 (-1); mkV3 1 0 1; mkV3 0 1 1]
                                   [(0, 1, 2)%nat] c3_plane)).
    repeat constructor.
  - apply (proj2 (mesh_index_error [mkV3 0 0 (-1); mkV3 1 0 1]
                                   [(0, 1, 2)%nat] c3_plane)).
    apply Exists_cons_tl, Exists_cons_tl, Exists_cons_hd. cbn. lia.
Defined.

Lemma flat_indices_app (t1 t2 : list (nat * nat * nat)) :
  flat_indices (t1 ++ t2) = flat_indices t1 ++ flat_indices t2.
Proof. unfold flat_indices. apply flat_map_app. Qed.

(** The faces are cut one by one: the segment list of two index buffers
    put end to end is the segment list of the first followed by that of the
    second. *)
Theorem mesh_section_app
        (verts : list V3) (t1 t2 : list (nat * nat * nat)) (plane : Plane) :
  mesh_plane_intersection (mkMesh verts (flat_indices t1 ++ flat_indices t2)) plane =
  (s1 <- mesh_plane_intersection (mkMesh verts (flat_indices t1)) plane ;;
   s2 <- mesh_plane_intersection (mkMesh verts (flat_indices t2)) plane ;;
   Ok (s1 ++ s2)).
Proof.
  rewrite <- flat_indices_app, !mesh_segments, mapM_app.
  destruct (mapM (lookup_face verts) t1) as [f1|e]; [|reflexivity]. cbn [bind].
  destruct (mapM (lookup_face verts) t2) as [f2|e]; [|reflexivity]. cbn [bind].
  rewrite flat_map_app. reflexivity.
Qed.

(** ** mesh_plane_intersection: a face that is properly cut *)





(** ** closest_triangle_to_point: batches, errors, degenerate faces *)

(** [closest_triangle_to_point] fails only on an empty faces array with at
    least one query point, with the [ValueError] of [argmin]; with no query
    point it returns no row, and with a face it always returns. *)
Theorem closest_triangle_errors (faces : list Face3) (points : list V3) :
  (points = [] -> closest_triangle_to_point faces points = Ok []) /\
  (faces = [] -> points <> [] ->
   closest_triangle_to_point faces points = Raise ValueError) /\
  (faces <> [] -> exists res, closest_triangle_to_point faces points = Ok res).
Proof.
  split; [|split].
  - intros ->. reflexivity.
  - intros -> Hp. destruct points as [|p points]; [congruence|]. reflexivity.
  - intro Hf. destruct (closest_rows faces points Hf) as [res [H _]].
    exists res. exact H.
Qed.

Lemma closest_triangle_errors_witness :
  closest_triangle_to_point [tri_good] [] = Ok [] /\
  closest_triangle_to_point [] [mkV3 0 0 0] = Raise ValueError /\
  exists res, closest_triangle_to_point [tri_good] [mkV3 0 0 0] = Ok res.
Proof.
  split; [|split].
  - apply (proj1 (closest_triangle_errors [tri_good] [])). reflexivity.
  - apply (proj1 (proj2 (closest_triangle_errors [] [mkV3 0 0 0])));
      [reflexivity|discriminate].
  - apply (proj2 (proj2 (closest_triangle_errors [tri_good] [mkV3 0 0 0]))).
    discriminate.
Defined.


















(** ** Curve: evaluate and the lookup table *)

Lemma empty_get_raise {A : Type} (l : list A) :
  l = [] -> get l 0 = Raise IndexError /\ get_last l = Raise IndexError.
Proof. intros ->. split; reflexivity. Qed.

Lemma evaluate_outcome (c : Curve) (xs : list Q) :
  (inputs c <> [] -> outputs c <> [] ->
   exists ys, evaluate c xs = Ok ys /\ length ys = length xs) /\
  (inputs c = [] \/ outputs c = [] -> evaluate c xs = Raise IndexError).
Proof.
  split.
  - intros Hi Ho.
    destruct (get_ends _ Hi) as [i0 [i1 [Hi0 Hi1]]].
    destruct (get_ends _ Ho) as [o0 [o1 [Ho0 Ho1]]].
    rewrite (evaluate_entries c i0 i1 o0 o1 xs Hi0 Hi1 Ho0 Ho1).
    eexists. split; [reflexivity|apply length_map].
  - intro H. unfold evaluate.
    destruct (outputs c) as [|o os] eqn:Eo.
    + destruct (f c); reflexivity.
    + destruct H as [H|H]; [|discriminate]. rewrite H.
      destruct (f c); reflexivity.
Qed.

(** [evaluate] returns one value per input when the curve has an input
    point and an output value, and raises [IndexError] when it has no input
    point or no output value. *)
Theorem evaluate_length_and_errors (c : Curve) (xs : list Q) :
  (inputs c <> [] -> outputs c <> [] ->
   exists ys, evaluate c xs = Ok ys /\ length ys = length xs) /\
  (inputs c = [] \/ outputs c = [] -> evaluate c xs = Raise IndexError).
Proof. apply evaluate_outcome. Qed.

Lemma evaluate_length_and_errors_witness :
  (exists ys, evaluate (mkCurve [0; 255] [0; 1] (0, 255) Linear None []) [1; 2; 3] = Ok ys /\
              length ys = 3%nat) /\
  evaluate (mkCurve [] [1] (0, 255) Linear None []) [1; 2; 3] = Raise IndexError.
Proof.
  split.
  - apply (proj1 (evaluate_length_and_errors
                    (mkCurve [0; 255] [0; 1] (0, 255) Linear None []) [1; 2; 3]));
      discriminate.
  - apply (proj2 (evaluate_length_and_errors
                    (mkCurve [] [1] (0, 255) Linear None []) [1; 2; 3])).
    left. reflexivity.
Defined.

(** Between the first and the last input (both included) the value of
    [evaluate] is the interpolant, or the first output when there is none,
    clipped to [0,1]. *)
Theorem evaluate_inside_range (c : Curve) (i0 i1 o0 o1 : Q) (xs : list Q) :
  get (inputs c) 0 = Ok i0 -> get_last (inputs c) = Ok i1 ->
  get (outputs c) 0 = Ok o0 -> get_last (outputs c) = Ok o1 ->
  exists ys,
    evaluate c xs = Ok ys /\
    Forall2 (fun x y => i0 <= x -> x <= i1 ->
                        y = clip (match f c with Some fn => fn x | None => o0 end) 0 1 /\
                        in01 y) xs ys.
Proof.
  intros Hi0 Hi1 Ho0 Ho1.
  rewrite (evaluate_entries c i0 i1 o0 o1 xs Hi0 Hi1 Ho0 Ho1).
  eexists. split; [reflexivity|].
  induction xs as [|x xs IH]; cbn [map]; constructor; [|exact IH].
  intros Hlo Hhi. unfold evaluate_at.
  destruct (Qltb i1 x) eqn:A; qbool; [lra|].
  destruct (Qltb x i0) eqn:B; qbool; [lra|].
  split; [reflexivity|apply clip_in01].
Qed.

Lemma evaluate_inside_range_witness :
  exists ys,
    evaluate (mkCurve [0; 255] [0; 1] (0, 255) Linear (line_fit [0; 255] [0; 1]) [])
             [0; 51; 255] = Ok ys /\
    Forall2 (fun x y => 0 <= x -> x <= 255 ->
                        y = clip (match line_fit [0; 255] [0; 1] with
                                  | Some fn => fn x
                                  | None => 0
                                  end) 0 1 /\
                        in01 y) [0; 51; 255] ys.
Proof.
  apply (evaluate_inside_range
           (mkCurve [0; 255] [0; 1] (0, 255) Linear (line_fit [0; 255] [0; 1]) [])
           0 255 0 1 [0; 51; 255]); reflexivity.
Defined.

Lemma evaluate_same_points (c c' : Curve) (xs : list Q) :
  inputs c = inputs c' -> outputs c = outputs c' -> f c = f c' ->
  evaluate c xs = evaluate c' xs.
Proof. intros Hi Ho Hf. unfold evaluate. rewrite Hi, Ho, Hf. reflexivity. Qed.

Lemma evaluate_length (c : Curve) (xs ys : list Q) :
  evaluate c xs = Ok ys -> length ys = length xs.
Proof.
  intro H. destruct (evaluate_ok_nonempty c xs ys H) as [Hi Ho].
  destruct (proj1 (evaluate_outcome c xs) Hi Ho) as [ys' [E L]].
  rewrite E in H. injection H as <-. exact L.
Qed.

Lemma linspace_length (a b : Q) (num : nat) :
  (1 <= num)%nat -> length (linspace a b num) = num.
Proof.
  intro H. unfold linspace. rewrite length_app, length_map, length_seq.
  cbn [length]. lia.
Qed.

Lemma zipWith_map_l {A B C D : Type} (g : B -> C -> D) (h : A -> B)
      (l : list A) (l' : list C) :
  zipWith g (map h l) l' = zipWith (fun a c => g (h a) c) l l'.
Proof.
  revert l'. induction l as [|a l IH]; intros [|c l']; cbn [map zipWith];
    try reflexivity.
  rewrite IH. reflexivity.
Qed.

Lemma concat_groups_length {A B C : Type} (g : A -> B -> list C) (n : nat)
      (l : list A) (l' : list B) :
  (forall a b, length (g a b) = n) -> length l = length l' ->
  length (concat (zipWith g l l')) = (n * length l)%nat.
Proof.
  intros Hg. revert l'. induction l as [|a l IH]; intros [|b l'] H;
    try discriminate; cbn [zipWith concat length].
  - lia.
  - rewrite length_app, Hg, (IH l') by (cbn [length] in H; lia). lia.
Qed.

Section CurveTable.

Variable spline lin : list Q -> list Q -> option (Q -> Q).

(** The lookup table of a constructed curve: 256 groups of four numbers,
  1024 in all; group [k] holds the grey ramp value [k / 255] three times
  and then the value of [evaluate] at the [k]-th of 256 evenly spaced
  samples of the bounds. *)
Theorem transfer_function_layout
      (ins outs : list Q) (bnds : Q * Q) (kind : CurveType) (c : Curve) :
Curve_init spline lin ins outs bnds kind = Ok c ->
exists value,
  evaluate c (linspace (fst bnds) (snd bnds) 256) = Ok value /\
  length value = 256%nat /\
  transfer_function c =
    concat (zipWith (fun v a => [v; v; v; a]) (linspace 0 1 256) value) /\
  length (transfer_function c) = 1024%nat.
Proof.
unfold Curve_init. intro H.
assert (R : length (linspace 0 1 256) = 256%nat) by (apply linspace_length; lia).
remember (linspace 0 1 256) as ramp eqn:Hramp. clear Hramp.
destruct (if (1 <? length ins)%nat then _ else _) as [fit|e]; [|discriminate].
cbn [bind] in H.
destruct (evaluate _ _) as [value|e] eqn:E; [|discriminate].
cbn [bind] in H. injection H as <-. cbn [transfer_function].
exists value.
assert (L : length value = 256%nat).
{ rewrite (evaluate_length _ _ _ E). apply linspace_length. lia. }
split; [|split; [exact L|]].
- rewrite <- E. apply evaluate_same_points; reflexivity.
- unfold set_column3. rewrite zipWith_map_l. split; [reflexivity|].
  rewrite (concat_groups_length _ 4).
  + rewrite R. reflexivity.
  + reflexivity.
  + rewrite R. symmetry. exact L.
Qed.

Lemma Curve_init_cases
    (ins outs : list Q) (bnds : Q * Q) (kind : CurveType) :
let fitted := match kind with
              | Cubic => spline ins outs
              | Linear => lin ins outs
              end in
((1 < length ins)%nat -> fitted = None ->
 Curve_init spline lin ins outs bnds kind = Raise FitError) /\
((length ins <= 1)%nat \/ fitted <> None ->
 (ins = [] \/ outs = [] ->
  Curve_init spline lin ins outs bnds kind = Raise IndexError) /\
 (ins <> [] -> outs <> [] ->
  exists c, Curve_init spline lin ins outs bnds kind = Ok c /\
            inputs c = ins /\ outputs c = outs /\ bounds c = bnds /\ type c = kind /\
            f c = if (1 <? length ins)%nat then fitted else None)).
Proof.
cbv zeta. split.
- intros Hlen Hfit. unfold Curve_init.
  apply Nat.ltb_lt in Hlen. rewrite Hlen.
  destruct kind; rewrite Hfit; reflexivity.
- intro Hfit.
  assert (Hsel : (if (1 <? length ins)%nat
                  then match kind with
                       | Cubic => fn <- of_option FitError (spline ins outs) ;; Ok (Some fn)
                       | Linear => fn <- of_option FitError (lin ins outs) ;; Ok (Some fn)
                       end
                  else Ok None)
                 = Ok (if (1 <? length ins)%nat
                       then match kind with
                            | Cubic => spline ins outs
                            | Linear => lin ins outs
                            end
                       else None)).
  { destruct (1 <? length ins)%nat eqn:L; [|reflexivity].
    apply Nat.ltb_lt in L.
    destruct Hfit as [Hfit|Hfit]; [lia|].
    destruct kind.
    - destruct (spline ins outs); [reflexivity|congruence].
    - destruct (lin ins outs); [reflexivity|congruence]. }
  unfold Curve_init. rewrite Hsel. cbn [bind].
  set (fit := if (1 <? length ins)%nat then _ else None).
  set (self := mkCurve ins outs bnds kind fit _).
  split.
  + intro Hempty.
    rewrite (proj2 (evaluate_outcome self _) Hempty). reflexivity.
  + intros Hi Ho.
    destruct (proj1 (evaluate_outcome self
                       (linspace (fst bnds) (snd bnds) 256)) Hi Ho) as [ys [E _]].
    rewrite E. cbn [bind]. eexists. split; [reflexivity|].
    cbn [inputs outputs bounds type f]. repeat split.
Qed.

(** The outcome of the constructor: a failed fit (attempted only with two
  input points or more) is the error; otherwise an empty [inputs] or
  [outputs] gives [IndexError]; otherwise a curve holding the inputs, the
  outputs and the fit is returned. *)
Theorem Curve_init_outcome
      (ins outs : list Q) (bnds : Q * Q) (kind : CurveType) :
let fitted := match kind with
              | Cubic => spline ins outs
              | Linear => lin ins outs
              end in
((1 < length ins)%nat -> fitted = None ->
 Curve_init spline lin ins outs bnds kind = Raise FitError) /\
((length ins <= 1)%nat \/ fitted <> None ->
 (ins = [] \/ outs = [] ->
  Curve_init spline lin ins outs bnds kind = Raise IndexError) /\
 (ins <> [] -> outs <> [] ->
  exists c, Curve_init spline lin ins outs bnds kind = Ok c /\
            inputs c = ins /\ outputs c = outs /\ bounds c = bnds /\ type c = kind /\
            f c = if (1 <? length ins)%nat then fitted else None)).
Proof. apply Curve_init_cases. Qed.

End CurveTable.

Lemma transfer_function_layout_witness :
  exists c value,
    Curve_init line_fit line_fit [0; 255] [0; 1] (0, 255) Cubic = Ok c /\
    evaluate c (linspace 0 255 256) = Ok value /\
    length value = 256%nat /\
    transfer_function c =
      concat (zipWith (fun v a => [v; v; v; a]) (linspace 0 1 256) value) /\
    length (transfer_function c) = 1024%nat.
Proof.
  destruct (Curve_init line_fit line_fit [0; 255] [0; 1] (0, 255) Cubic) as [c|e] eqn:E;
    [|vm_compute in E; discriminate].
  destruct (transfer_function_layout line_fit line_fit [0; 255] [0; 1] (0, 255) Cubic c E)
    as [value H].
  exists c, value. split; [reflexivity|exact H].
Defined.

Lemma Curve_init_outcome_witness :
  Curve_init no_fit no_fit [0; 255] [0; 1] (0, 255) Cubic = Raise FitError /\
  Curve_init no_fit no_fit [] [1] (0, 255) Cubic = Raise IndexError /\
  exists c, Curve_init line_fit line_fit [0; 255] [0; 1] (0, 255) Linear = Ok c /\
            inputs c = [0; 255] /\ outputs c = [0; 1] /\ bounds c = (0, 255) /\
            type c = Linear /\ f c = line_fit [0; 255] [0; 1].
Proof.
  split; [|split].
  - apply (proj1 (Curve_init_outcome no_fit no_fit [0; 255] [0; 1] (0, 255) Cubic));
      [cbn; lia|reflexivity].
  - apply (proj1 (proj2 (Curve_init_outcome no_fit no_fit [] [1] (0, 255) Cubic)
                        (or_introl (Nat.le_0_l 1)))).
    left. reflexivity.
  - destruct (Curve_init_outcome line_fit line_fit [0; 255] [0; 1] (0, 255) Linear)
      as [_ H].
    destruct H as [_ H]; [right; discriminate|].
    apply H; discriminate.
Defined.

(** ** Volume.bin: outcome, identity, rounding *)

Lemma round_within_half (x : Q) :
  x - (1 # 2) <= inject_Z (round_half_even x) /\
  inject_Z (round_half_even x) <= x + (1 # 2).
Proof.
  pose proof (Qfloor_le x) as Hlo. pose proof (Qlt_floor x) as Hhi.
  rewrite inject_Z_plus in Hhi. change (inject_Z 1) with 1 in Hhi.
  unfold round_half_even.
  destruct (Qltb (x - inject_Z (Qfloor x)) (1 # 2)) eqn:A; qbool.
  - lra.
  - destruct (Qltb (1 # 2) (x - inject_Z (Qfloor x))) eqn:B; qbool.
    + rewrite inject_Z_plus. change (inject_Z 1) with 1. lra.
    + destruct (Z.even (Qfloor x)).
      * lra.
      * rewrite inject_Z_plus. change (inject_Z 1) with 1. lra.
Qed.

Lemma round_monotone (x y : Q) : x <= y -> (round_half_even x <= round_half_even y)%Z.
Proof.
  intro H.
  pose proof (Qfloor_resp_le _ _ H) as F.
  pose proof (round_floor_bounds x) as Bx. pose proof (round_floor_bounds y) as By.
  destruct (Z.eq_dec (Qfloor x) (Qfloor y)) as [E|N]; [|lia].
  unfold round_half_even. rewrite <- E.
  destruct (Qltb (x - inject_Z (Qfloor x)) (1 # 2)) eqn:A; qbool.
  - destruct (Qltb (y - inject_Z (Qfloor x)) (1 # 2)); [lia|].
    destruct (Qltb (1 # 2) (y - inject_Z (Qfloor x))); [lia|].
    destruct (Z.even (Qfloor x)); lia.
  - assert (A' : Qltb (y - inject_Z (Qfloor x)) (1 # 2) = false)
      by (apply Qltb_ge; lra).
    rewrite A'.
    destruct (Qltb (1 # 2) (x - inject_Z (Qfloor x))) eqn:B; qbool.
    + assert (B' : Qltb (1 # 2) (y - inject_Z (Qfloor x)) = true)
        by (apply Qltb_lt; lra).
      rewrite B'. lia.
    + destruct (Qltb (1 # 2) (y - inject_Z (Qfloor x))); [|lia].
      destruct (Z.even (Qfloor x)); lia.
Qed.

Lemma bin_ok_shape (zoom : ndarray -> Q -> list Z -> list Z -> Z)
      (grid target : ndarray) (max_dim : Z) :
  bin zoom grid max_dim = Ok target ->
  exists largest,
    np_max (shape grid) = Ok largest /\ largest <> 0%Z /\
    shape target =
      map (fun dim => round_half_even (inject_Z dim * (inject_Z max_dim / inject_Z largest)))
          (shape grid) /\
    Forall (fun d => (0 <= d)%Z) (shape target).
Proof.
  unfold bin. intro H.
  destruct (np_max (shape grid)) as [largest|e]; [|discriminate].
  cbn [bind] in H.
  destruct (largest =? 0)%Z eqn:Z0; [discriminate|].
  apply Z.eqb_neq in Z0.
  destruct (forallb _ _) eqn:F; [|discriminate].
  injection H as <-. cbn [shape].
  exists largest. repeat split; try assumption.
  apply Forall_forall. intros d Hd.
  rewrite forallb_forall in F. apply Z.leb_le, F, Hd.
Qed.

Section BinFacts.

Variable zoom : ndarray -> Q -> list Z -> list Z -> Z.

(** Every dimension of the binned grid is within one half of the scaled
  dimension [s * max_dim / max(shape)] it comes from. *)
Theorem bin_rounding_tolerance (grid target : ndarray) (max_dim : Z) :
bin zoom grid max_dim = Ok target ->
exists largest,
  np_max (shape grid) = Ok largest /\
  Forall2 (fun s d =>
             let x := inject_Z s * (inject_Z max_dim / inject_Z largest) in
             x - (1 # 2) <= inject_Z d /\ inject_Z d <= x + (1 # 2))
          (shape grid) (shape target).
Proof.
intro H. destruct (bin_ok_shape zoom grid target max_dim H) as [largest [Hm [_ [Hs _]]]].
exists largest. split; [exact Hm|]. rewrite Hs. clear.
induction (shape grid) as [|s l IH]; cbn [map];
  [constructor|constructor; [apply round_within_half|exact IH]].
Qed.

(** Binning keeps the order of the dimensions: a dimension that is not
  larger than another is not larger after binning. *)
Theorem bin_keeps_order (grid target : ndarray) (max_dim : Z) (i j : nat) (si sj di dj : Z) :
Forall (fun d => (0 <= d)%Z) (shape grid) ->
bin zoom grid max_dim = Ok target ->
nth_error (shape grid) i = Some si -> nth_error (shape grid) j = Some sj ->
nth_error (shape target) i = Some di -> nth_error (shape target) j = Some dj ->
(si <= sj)%Z -> (di <= dj)%Z.
Proof.
intros Hnn H Hi Hj Hdi Hdj Hle.
destruct (bin_ok_shape zoom grid target max_dim H) as [largest [Hm [Hz [Hs Hpos]]]].
destruct (np_max_ok (shape grid)) as [m [Hm' [Hin Hall]]].
{ intro E. rewrite E in Hi. destruct i; discriminate. }
rewrite Hm in Hm'. injection Hm' as <-.
rewrite Forall_forall in Hnn.
assert (Hl : (0 < largest)%Z) by (specialize (Hnn largest Hin); lia).
assert (Hmax : (0 <= max_dim)%Z).
{ rewrite Forall_forall in Hpos.
  assert (Hd : In (round_half_even
                     (inject_Z largest * (inject_Z max_dim / inject_Z largest)))
                  (shape target)).
  { rewrite Hs. apply in_map_iff. exists largest. split; [reflexivity|exact Hin]. }
  specialize (Hpos _ Hd).
  rewrite (round_integer max_dim) in Hpos; [exact Hpos|].
  assert (Ql : 0 < inject_Z largest) by (rewrite Zlt_Qlt in Hl; exact Hl).
  field. lra. }
rewrite Hs in Hdi, Hdj.
rewrite nth_error_map, Hi in Hdi. rewrite nth_error_map, Hj in Hdj.
cbn [option_map] in Hdi, Hdj. injection Hdi as <-. injection Hdj as <-.
apply round_monotone.
assert (Ql : 0 < inject_Z largest) by (rewrite Zlt_Qlt in Hl; exact Hl).
assert (Qm : 0 <= inject_Z max_dim) by (rewrite Zle_Qle in Hmax; exact Hmax).
assert (Qs : inject_Z si <= inject_Z sj) by (rewrite Zle_Qle in Hle; exact Hle).
assert (Hscale : 0 <= inject_Z max_dim / inject_Z largest).
{ apply Qle_shift_div_l; [exact Ql|]. lra. }
apply Qmult_le_compat_r; assumption.
Qed.

(** Binning to the largest dimension the grid already has changes no
  dimension. *)
Theorem bin_to_own_size (grid : ndarray) (largest : Z) :
Forall (fun d => (0 <= d)%Z) (shape grid) ->
np_max (shape grid) = Ok largest -> (0 < largest)%Z ->
exists target, bin zoom grid largest = Ok target /\ shape target = shape grid.
Proof.
intros Hnn Hm Hl.
assert (Ql : 0 < inject_Z largest) by (rewrite Zlt_Qlt in Hl; exact Hl).
assert (E : map (fun dim => round_half_even
                              (inject_Z dim * (inject_Z largest / inject_Z largest)))
                (shape grid) = shape grid).
{ rewrite <- (map_id (shape grid)) at 2. apply map_ext. intro dim.
  apply round_integer. field. lra. }
unfold bin. rewrite Hm. cbn [bind].
destruct (largest =? 0)%Z eqn:Z0; [apply Z.eqb_eq in Z0; lia|].
rewrite E.
assert (F : forallb (fun d => (0 <=? d)%Z) (shape grid) = true).
{ apply forallb_forall. intros d Hd. rewrite Forall_forall in Hnn.
  apply Z.leb_le, Hnn, Hd. }
rewrite F. eexists. split; reflexivity.
Qed.


End BinFacts.

Lemma bin_rounding_tolerance_witness :
  exists target largest,
    bin no_zoom (blank [2000; 1000; 30]%Z) 1024 = Ok target /\
    np_max [2000; 1000; 30]%Z = Ok largest /\
    Forall2 (fun s d =>
               let x := inject_Z s * (inject_Z 1024 / inject_Z largest) in
               x - (1 # 2) <= inject_Z d /\ inject_Z d <= x + (1 # 2))
            [2000; 1000; 30]%Z (shape target).
Proof.
  destruct (bin no_zoom (blank [2000; 1000; 30]%Z) 1024) as [target|e] eqn:E;
    [|vm_compute in E; discriminate].
  destruct (bin_rounding_tolerance no_zoom (blank [2000; 1000; 30]%Z) target 1024 E)
    as [largest H].
  exists target, largest. split; [reflexivity|exact H].
Defined.

Lemma bin_keeps_order_witness :
  exists target di dj,
    bin no_zoom (blank [2000; 1000; 30]%Z) 1024 = Ok target /\
    nth_error (shape target) 2 = Some di /\ nth_error (shape target) 1 = Some dj /\
    (di <= dj)%Z.
Proof.
  destruct (bin no_zoom (blank [2000; 1000; 30]%Z) 1024) as [target|e] eqn:E;
    [|vm_compute in E; discriminate].
  assert (S : shape target = [1024; 512; 15]%Z).
  { pose proof E as E'. vm_compute in E'. injection E' as <-. reflexivity. }
  exists target, 15%Z, 512%Z. split; [reflexivity|].
  rewrite S. split; [reflexivity|]. split; [reflexivity|].
  apply (bin_keeps_order no_zoom (blank [2000; 1000; 30]%Z) target 1024 2 1 30 1000 15 512);
    try (rewrite S); try reflexivity; try exact E.
  - repeat constructor; discriminate.
  - discriminate.
Defined.

Lemma bin_to_own_size_witness :
  exists target, bin no_zoom (blank [4; 2; 2]%Z) 4 = Ok target /\
                 shape target = [4; 2; 2]%Z.
Proof.
  apply (bin_to_own_size no_zoom (blank [4; 2; 2]%Z) 4).
  - repeat constructor; discriminate.
  - reflexivity.
  - reflexivity.
Defined.


(** ** Volume.__init__: what a new volume holds *)

Section VolumeInit.

Variable spline lin : list Q -> list Q -> option (Q -> Q).
Variable histogram1d : ndarray -> list Q.
Variable zoom : ndarray -> Q -> list Z -> list Z -> Z.

(** A constructed volume keeps the grid and the voxel size it is given;
  its default curve is the cubic fit through the two ends 0 and 255 of the
  histogram range with the outputs 0 and 1; its render target is the grid
  itself when the grid has no more than [max_bytes] bytes, and otherwise
  the grid binned to [max_dim]. *)
Theorem Volume_init_holds
      (grid : ndarray) (size centre : V3) (max_bytes : Q) (max_dim : Z) (v : Volume) :
Volume_init spline lin histogram1d zoom grid size centre max_bytes max_dim = Ok v ->
data v = grid /\ voxel_size v = size /\
fst (histogram v) = histogram1d grid /\
(exists i0, inputs (curve v) = [i0; 255] /\ i0 == 0 /\
            f (curve v) = spline [i0; 255] [0; 1]) /\
outputs (curve v) = [0; 1] /\ type (curve v) = Cubic /\
(inject_Z (nbytes grid) <= max_bytes -> render_target v = grid) /\
(max_bytes < inject_Z (nbytes grid) -> bin zoom grid max_dim = Ok (render_target v)).
Proof.
unfold Volume_init. cbn [snd]. intro H.
assert (G0 : exists i0, get (linspace 0 255 257) 0 = Ok i0 /\ i0 == 0).
{ eexists. split; reflexivity. }
destruct G0 as [i0 [G0 E0]]. rewrite G0 in H. cbn [bind] in H.
assert (G1 : get_last (linspace 0 255 257) = Ok 255).
{ unfold linspace, get_last.
  destruct (map _ _) as [|a r]; cbn [app]; [reflexivity|].
  rewrite last_last. reflexivity. }
rewrite G1 in H. cbn [bind] in H.
destruct (Curve_init spline lin [i0; 255] [0; 1] (i0, 255) Cubic) as [c|e] eqn:C;
  [|discriminate].
cbn [bind] in H.
destruct (Curve_init_cases spline lin [i0; 255] [0; 1] (i0, 255) Cubic) as [Hfail Hok].
cbv zeta in Hfail, Hok.
assert (Hfit : spline [i0; 255] [0; 1] <> None).
{ intro N. rewrite (Hfail ltac:(cbn; lia) N) in C. discriminate. }
destruct (Hok (or_intror Hfit)) as [_ Hc].
destruct Hc as [c' [C' [Hi [Ho [_ [Ht Hf]]]]]]; [discriminate|discriminate|].
rewrite C in C'. injection C' as <-.
destruct (Qltb max_bytes (inject_Z (nbytes grid))) eqn:B; qbool.
- destruct (bin zoom grid max_dim) as [t|e] eqn:Bn; [|discriminate].
  cbn [bind] in H. injection H as <-.
  cbn [data voxel_size histogram curve render_target fst].
  repeat split; try assumption; try reflexivity.
  + exists i0. repeat split; assumption.
  + intro Hle. lra.
- cbn [bind] in H. injection H as <-.
  cbn [data voxel_size histogram curve render_target fst].
  repeat split; try assumption; try reflexivity.
  + exists i0. repeat split; assumption.
  + intro Hlt. lra.
Qed.

End VolumeInit.

Lemma Volume_init_holds_witness :
  exists v,
    Volume_init line_fit line_fit no_histogram no_zoom (blank [4; 2; 2]%Z)
                (mkV3 1 1 1) (mkV3 10 0 0) 8 2 = Ok v /\
    data v = blank [4; 2; 2]%Z /\ outputs (curve v) = [0; 1] /\
    bin no_zoom (blank [4; 2; 2]%Z) 2 = Ok (render_target v).
Proof.
  destruct (Volume_init line_fit line_fit no_histogram no_zoom (blank [4; 2; 2]%Z)
                        (mkV3 1 1 1) (mkV3 10 0 0) 8 2) as [v|e] eqn:E;
    [|vm_compute in E; discriminate].
  exists v. split; [reflexivity|].
  destruct (Volume_init_holds line_fit line_fit no_histogram no_zoom (blank [4; 2; 2]%Z)
                              (mkV3 1 1 1) (mkV3 10 0 0) 8 2 v E)
    as [Hd [_ [_ [_ [Ho [_ [_ Hbin]]]]]]].
  split; [exact Hd|]. split; [exact Ho|].
  apply Hbin. reflexivity.
Defined.

(** ** misc.clamp *)

Lemma py_min_cases (a b : Q) : (b < a /\ py_min a b = b) \/ (a <= b /\ py_min a b = a).
Proof.
  unfold py_min. destruct (Qltb b a) eqn:E; qbool; [left|right]; split;
    (assumption || reflexivity).
Qed.

Lemma py_max_cases (a b : Q) : (a < b /\ py_max a b = b) \/ (b <= a /\ py_max a b = a).
Proof.
  unfold py_max. destruct (Qltb a b) eqn:E; qbool; [left|right]; split;
    (assumption || reflexivity).
Qed.

Lemma clip_value (x lo hi : Q) : lo < x -> x <= hi -> clip x lo hi = x.
Proof.
  intros H1 H2. unfold clip.
  assert (A : Qle_bool x lo = false) by (apply Qle_bool_gt; exact H1).
  assert (B : Qle_bool x hi = true) by (apply Qle_bool_iff; exact H2).
  rewrite A, B. reflexivity.
Qed.

Lemma clip_low (x lo hi : Q) : x <= lo -> lo <= hi -> clip x lo hi = lo.
Proof.
  intros H1 H2. unfold clip.
  assert (A : Qle_bool x lo = true) by (apply Qle_bool_iff; exact H1).
  assert (B : Qle_bool lo hi = true) by (apply Qle_bool_iff; exact H2).
  rewrite A, B. reflexivity.
Qed.

Lemma clip_high (x lo hi : Q) : lo < x -> hi < x -> clip x lo hi = hi.
Proof.
  intros H1 H2. unfold clip.
  assert (A : Qle_bool x lo = false) by (apply Qle_bool_gt; exact H1).
  assert (B : Qle_bool x hi = false) by (apply Qle_bool_gt; exact H2).
  rewrite A, B. reflexivity.
Qed.

(** With bounds in order, [clamp] returns a value between them, returns
    the value itself when it is already between them, and clamping twice is
    clamping once; it agrees with [np.clip].  With the bounds out of order
    it returns [min_value]. *)
Theorem clamp_bounds (value min_value max_value : Q) :
  (min_value <= max_value ->
   min_value <= clamp value min_value max_value /\
   clamp value min_value max_value <= max_value /\
   (min_value <= value -> value <= max_value ->
    clamp value min_value max_value = value) /\
   clamp (clamp value min_value max_value) min_value max_value
   = clamp value min_value max_value /\
   clamp value min_value max_value == clip value min_value max_value) /\
  (max_value < min_value -> clamp value min_value max_value = min_value).
Proof.
  unfold clamp. split.
  - intro Hle.
    destruct (py_min_cases value max_value) as [[H1 E1]|[H1 E1]]; rewrite E1.
    + destruct (py_max_cases max_value min_value) as [[H2 E2]|[H2 E2]]; rewrite E2; [lra|].
      split; [lra|]. split; [lra|]. split; [intros; lra|]. split.
      * destruct (py_min_cases max_value max_value) as [[H3 E3]|[H3 E3]]; rewrite E3;
          [lra|exact E2].
      * rewrite clip_high by lra. reflexivity.
    + destruct (py_max_cases value min_value) as [[H2 E2]|[H2 E2]]; rewrite E2.
      * split; [lra|]. split; [lra|]. split; [intros; lra|]. split.
        -- destruct (py_min_cases min_value max_value) as [[H3 E3]|[H3 E3]]; rewrite E3;
             [lra|].
           destruct (py_max_cases min_value min_value) as [[H4 E4]|[H4 E4]]; exact E4.
        -- rewrite clip_low by lra. reflexivity.
      * split; [lra|]. split; [lra|]. split; [intros; reflexivity|]. split.
        -- rewrite E1, E2. reflexivity.
        -- destruct (Qlt_le_dec min_value value) as [Hv|Hv].
           ++ rewrite clip_value by lra. reflexivity.
           ++ rewrite clip_low by lra. lra.
  - intro Hlt.
    destruct (py_min_cases value max_value) as [[H1 E1]|[H1 E1]]; rewrite E1;
      match goal with
      | |- py_max ?x min_value = _ =>
          destruct (py_max_cases x min_value) as [[H2 E2]|[H2 E2]]; rewrite E2
      end; try reflexivity; lra.
Qed.

Lemma clamp_bounds_witness :
  (0 <= clamp (3 # 2) 0 1 /\ clamp (3 # 2) 0 1 <= 1 /\
   (0 <= 3 # 2 -> 3 # 2 <= 1 -> clamp (3 # 2) 0 1 = 3 # 2) /\
   clamp (clamp (3 # 2) 0 1) 0 1 = clamp (3 # 2) 0 1 /\
   clamp (3 # 2) 0 1 == clip (3 # 2) 0 1) /\
  clamp (3 # 2) 5 1 = 5.
Proof.
  split.
  - apply (proj1 (clamp_bounds (3 # 2) 0 1)). discriminate.
  - apply (proj2 (clamp_bounds (3 # 2) 5 1)). reflexivity.
Defined.
